(** * GooglePolylineService: a shallow embedding

    Source: [src/services/google/google-polyline.service.ts].

    The service is glue between a UI component ([MapPolylineComponent]) and
    a mapping platform ([MapService], [Polyline]).  Its own state is the
    field [_polylines], a JavaScript [Map] from component objects to
    promises of native polyline handles.  Everything else it touches is
    external: the promise machinery of the language runtime, the zone of
    the UI framework, the native handles and the observers.

    The embedding keeps the service's methods as monadic functions over a
    state that holds the [_polylines] map together with the part of the
    runtime the methods act on (promise cells, the job queue, the zone
    depth, the registered native listeners) and a trace of every call made
    on an external object.  Closures handed to [then] and [AddListener]
    are defunctionalised: one constructor per arrow function of the
    source, with the variables it captures as arguments. *)

From stdpp Require Import gmap strings list fin_maps.

Set Default Proof Using "Type".

(** ** JavaScript values

    [GetCoordinatesFromClick] takes [MouseEvent | any], so its argument
    ranges over all values.  Numbers are kept symbolic (sign, mantissa,
    exponent): only their truthiness is ever inspected.  Objects are plain
    records of data properties; a function value is a native method taking
    no argument, given by what a call to it completes with. *)

Inductive number :=
  | NaN
  | Zero (negative : bool)
  | Finite (negative : bool) (mantissa : positive) (exponent : Z)
  | Infinity (negative : bool).

#[local] Unset Elimination Schemes.
Inductive value :=
  | VUndefined
  | VNull
  | VBoolean (b : bool)
  | VNumber (n : number)
  | VString (s : string)
  | VObject (props : list (string * value))
  | VFunction (body : completion)
with completion :=
  | Returns (v : value)
  | Throws (v : value).
#[local] Set Elimination Schemes.

(** What a [throw] carries: the runtime's own [TypeError], or a value
    thrown by external code. *)
Inductive exn :=
  | TypeError (msg : string)
  | Thrown (v : value).

(** [ToBoolean]: the falsy values are [undefined], [null], [false], [NaN],
    [+0], [-0] and the empty string. *)
Definition truthy (v : value) : bool :=
  match v with
  | VUndefined | VNull => false
  | VBoolean b => b
  | VNumber NaN | VNumber (Zero _) => false
  | VNumber _ => true
  | VString s => negb (String.eqb s "")
  | VObject _ | VFunction _ => true
  end.

Definition falsy (v : value) : bool := negb (truthy v).

Fixpoint own_property (props : list (string * value)) (k : string) : value :=
  match props with
  | [] => VUndefined
  | (k', v) :: rest => if String.eqb k' k then v else own_property rest k
  end.

(** [v.k] where it does not throw.  The keys read by the service
    ([latLng], [lat], [lng]) are not defined on the prototypes of the
    primitive types, so a read on a primitive gives [undefined]. *)
Definition member (v : value) (k : string) : value :=
  match v with
  | VObject props => own_property props k
  | _ => VUndefined
  end.

(** ** Data of the service *)

(** Object identities.  [component] is a [MapPolylineComponent] instance,
    the key type of [_polylines]; [Polyline] is a native handle;
    [promise] is a [Promise<Polyline>] and [vpromise] a [Promise<void>]. *)
Definition component := positive.
Definition Polyline := positive.
Definition promise := positive.
Definition vpromise := positive.
Definition observer := positive.
Bind Scope positive_scope with component Polyline promise vpromise observer.

(** Modelled from the spec: the class [MapPolylineComponent] is declared
    in [../../components/mappolyline], outside the given source.  The spec
    speaks of "a UI-framework component's declarative polyline
    properties"; the record has the eleven properties [AddPolyline] reads,
    kept as values since the service only copies them. *)
Record MapPolylineComponent := {
  Id : value;
  Clickable : value;
  Draggable : value;
  Editable : value;
  Geodesic : value;
  Path : value;
  StrokeColor : value;
  StrokeOpacity : value;
  StrokeWeight : value;
  Visible : value;
  zIndex : value
}.

Record IPolylineOptions := {
  id : value;
  clickable : value;
  draggable : value;
  editable : value;
  geodesic : value;
  path : value;
  strokeColor : value;
  strokeOpacity : value;
  strokeWeight : value;
  visible : value;
  zIndex_ : value
}.

(** The arrow function given to [AddListener] in [CreateEventObservable]:
    [(e) => this._zone.run(() => observer.next(e))], capturing
    [observer]. *)
Inductive listener :=
  | Emit (observer_ : observer).

(** The arrow functions given to [then], each with what it captures. *)
Inductive reaction :=
  | OnAddListener (eventName : string) (observer_ : observer)
      (* (p) => { p.AddListener(eventName, (e) => ...); } *)
  | OnDelete (polyline : component)
      (* (l) => this._zone.run(() => { l.Delete(); this._polylines.delete(polyline); }) *)
  | OnSetOptions (options : IPolylineOptions)
      (* (l) => { l.SetOptions(options); } *)
  | OnSetPath (polyline : component).
      (* (l) => this._zone.run(() => { l.SetPath(polyline.Path); }) *)

(** Calls made on objects outside the service. *)
Inductive call :=
  | CreatePolylineCall (o : IPolylineOptions) (returned : promise)
  | AddListenerCall (l : Polyline) (eventName : string) (fn : listener)
  | DeleteCall (l : Polyline)
  | SetOptionsCall (l : Polyline) (options : IPolylineOptions)
  | SetPathCall (l : Polyline) (path_ : value)
  | NextCall (observer_ : observer) (e : value).

(** A [Promise<Polyline>] is settled by the platform; while it is pending
    it holds the reactions registered by [then], each with the promise
    that [then] returned. *)
Inductive hstate :=
  | Pending (waiting : list (reaction * vpromise))
  | Fulfilled (l : Polyline)
  | Rejected (reason : exn).

(** A [Promise<void>] is made by [then] or by [Promise.resolve()]. *)
Inductive vstate :=
  | VoidPending
  | VoidFulfilled
  | VoidRejected (reason : exn).

(** Entries of the runtime's promise job queue. *)
Inductive job :=
  | Reaction (r : reaction) (l : Polyline) (derived : vpromise)
  | Rejection (reason : exn) (derived : vpromise).

Record state := State {
  _polylines : gmap component promise;        (* this._polylines *)
  components : component -> MapPolylineComponent;  (* the component objects *)
  handles : gmap promise hstate;             (* Promise<Polyline> cells *)
  voids : gmap vpromise vstate;              (* Promise<void> cells *)
  jobs : list job;                           (* promise job queue *)
  listeners : list (Polyline * string * listener);  (* native registrations *)
  zone : nat;                                (* nesting of _zone.run *)
  trace : list (nat * call)                  (* external calls, with the zone depth *)
}.

Definition set_polylines (f : gmap component promise -> gmap component promise)
    (s : state) : state :=
  State (f (_polylines s)) (components s) (handles s) (voids s) (jobs s)
        (listeners s) (zone s) (trace s).

Definition set_components
    (f : (component -> MapPolylineComponent) -> component -> MapPolylineComponent)
    (s : state) : state :=
  State (_polylines s) (f (components s)) (handles s) (voids s) (jobs s)
        (listeners s) (zone s) (trace s).

Definition set_handles (f : gmap promise hstate -> gmap promise hstate)
    (s : state) : state :=
  State (_polylines s) (components s) (f (handles s)) (voids s) (jobs s)
        (listeners s) (zone s) (trace s).

Definition set_voids (f : gmap vpromise vstate -> gmap vpromise vstate)
    (s : state) : state :=
  State (_polylines s) (components s) (handles s) (f (voids s)) (jobs s)
        (listeners s) (zone s) (trace s).

Definition set_jobs (f : list job -> list job) (s : state) : state :=
  State (_polylines s) (components s) (handles s) (voids s) (f (jobs s))
        (listeners s) (zone s) (trace s).

Definition set_listeners
    (f : list (Polyline * string * listener) -> list (Polyline * string * listener))
    (s : state) : state :=
  State (_polylines s) (components s) (handles s) (voids s) (jobs s)
        (f (listeners s)) (zone s) (trace s).

Definition set_zone (f : nat -> nat) (s : state) : state :=
  State (_polylines s) (components s) (handles s) (voids s) (jobs s)
        (listeners s) (f (zone s)) (trace s).

Definition set_trace (f : list (nat * call) -> list (nat * call))
    (s : state) : state :=
  State (_polylines s) (components s) (handles s) (voids s) (jobs s)
        (listeners s) (zone s) (f (trace s)).

(** ** The monad of method bodies: state, and [throw] *)

Inductive outcome (A : Type) :=
  | Ok (a : A)
  | Throw (err : exn).
Arguments Ok {A} a.
Arguments Throw {A} err.

Definition M (A : Type) : Type := state -> outcome A * state.

Definition ret {A} (a : A) : M A := fun s => (Ok a, s).

Definition throw {A} (err : exn) : M A := fun s => (Throw err, s).

Definition bind {A B} (m : M A) (k : A -> M B) : M B :=
  fun s =>
    match m s with
    | (Ok a, s') => k a s'
    | (Throw err, s') => (Throw err, s')
    end.

Declare Scope js_scope.
Delimit Scope js_scope with js.
Notation "x <- m ;; k" := (bind m (fun x => k))
  (at level 100, m at next level, right associativity) : js_scope.
Notation "m ;;; k" := (bind m (fun _ => k))
  (at level 100, right associativity) : js_scope.
Open Scope js_scope.

Definition modify (f : state -> state) : M unit := fun s => (Ok tt, f s).

(** Record an external call at the current zone depth. *)
Definition emit (c : call) : M unit :=
  modify (fun s => set_trace (fun t => t ++ [(zone s, c)]) s).

(** ** The runtime and the external objects *)

(** [v.k] as an expression: reading a property of [null] or [undefined]
    throws. *)
Definition get (v : value) (k : string) : M value :=
  match v with
  | VUndefined | VNull => throw (TypeError "cannot read property")
  | _ => ret (member v k)
  end.

(** [f()] for a method value [f]. *)
Definition invoke (f : value) : M value :=
  match f with
  | VFunction (Returns v) => ret v
  | VFunction (Throws v) => throw (Thrown v)
  | _ => throw (TypeError "not a function")
  end.

(** Reading the properties of a component object. *)
Definition read (polyline : component) : M MapPolylineComponent :=
  fun s => (Ok (components s polyline), s).

(** [this._zone.run(fn)]: [fn] runs one level deeper in the zone; the
    zone is left again whether [fn] returns or throws, and [run] passes on
    what [fn] gave. *)
Definition zone_run {A} (fn : M A) : M A :=
  fun s =>
    let (r, s') := fn (set_zone S s) in
    (r, set_zone pred s').

(** [Promise.resolve()]: a new promise, already fulfilled. *)
Definition Promise_resolve : M vpromise :=
  fun s =>
    let d := fresh (dom (voids s)) in
    (Ok d, set_voids (insert d VoidFulfilled) s).

(** [p.then(r)]: a new pending promise [d] is returned.  If [p] is
    pending, [r] waits on it; if [p] is settled, a job is queued.  A
    promise that has no cell yet is pending, with nothing waiting. *)
Definition then_ (p : promise) (r : reaction) : M vpromise :=
  fun s =>
    let d := fresh (dom (voids s)) in
    let s1 := set_voids (insert d VoidPending) s in
    match default (Pending []) (handles s !! p) with
    | Pending waiting =>
        (Ok d, set_handles (insert p (Pending (waiting ++ [(r, d)]))) s1)
    | Fulfilled l => (Ok d, set_jobs (fun q => q ++ [Reaction r l d]) s1)
    | Rejected reason => (Ok d, set_jobs (fun q => q ++ [Rejection reason d]) s1)
    end.

(** [m.then(r)] where [m] is what [Map.get] gave: [undefined.then]
    throws. *)
Definition then_of (m : option promise) (r : reaction) : M vpromise :=
  match m with
  | Some p => then_ p r
  | None => throw (TypeError "cannot read property 'then' of undefined")
  end.

(** Modelled from the spec: [MapService.CreatePolyline] is declared in
    [../mapservice], outside the given source.  The spec calls what the
    service keeps "pending asynchronous handles", "obtained asynchronously
    from the mapping platform": the call is recorded with the options it
    received and gives a new pending promise, which the platform settles
    later. *)
Definition CreatePolyline (o : IPolylineOptions) : M promise :=
  fun s =>
    let p := fresh (dom (handles s)) in
    (Ok p, set_trace (fun t => t ++ [(zone s, CreatePolylineCall o p)])
             (set_handles (insert p (Pending [])) s)).

(** Modelled from the spec: the class [Polyline] is declared in
    [../../models/polyline], outside the given source.  The spec calls it
    the native handle, "the underlying mapping-library object representing
    a polyline": a call of one of its methods is recorded in the trace
    with its arguments and returns; [AddListener] also registers the
    function with the platform. *)
Definition Polyline_AddListener (l : Polyline) (eventName : string)
    (fn : listener) : M unit :=
  emit (AddListenerCall l eventName fn) ;;;
  modify (set_listeners (fun ls => ls ++ [(l, eventName, fn)])).

Definition Polyline_Delete (l : Polyline) : M unit := emit (DeleteCall l).

Definition Polyline_SetOptions (l : Polyline) (options : IPolylineOptions)
    : M unit :=
  emit (SetOptionsCall l options).

Definition Polyline_SetPath (l : Polyline) (path_ : value) : M unit :=
  emit (SetPathCall l path_).

(** [observer.next(e)]. *)
Definition observer_next (observer_ : observer) (e : value) : M unit :=
  emit (NextCall observer_ e).

(** [Map.prototype.get], [set] and [delete] on [this._polylines]. *)
Definition polylines_get (polyline : component) : M (option promise) :=
  fun s => (Ok (_polylines s !! polyline), s).

Definition polylines_set (polyline : component) (p : promise) : M unit :=
  modify (set_polylines (insert polyline p)).

Definition polylines_delete (polyline : component) : M unit :=
  modify (set_polylines (delete polyline)).

(** ** The service: [GooglePolylineService] *)

Module GooglePolylineService.

(** The object literal built by [AddPolyline]. *)
Definition options_of (c : MapPolylineComponent) : IPolylineOptions :=
  {| id := Id c;
     clickable := Clickable c;
     draggable := Draggable c;
     editable := Editable c;
     geodesic := Geodesic c;
     path := Path c;
     strokeColor := StrokeColor c;
     strokeOpacity := StrokeOpacity c;
     strokeWeight := StrokeWeight c;
     visible := Visible c;
     zIndex_ := zIndex c |}.

Definition AddPolyline (polyline : component) : M unit :=
  c <- read polyline ;;
  let o := options_of c in
  polylinePromise <- CreatePolyline o ;;
  polylines_set polyline polylinePromise.

(** What the listener registered by [CreateEventObservable] does when the
    platform calls it with an event. *)
Definition listener_apply (fn : listener) (e : value) : M unit :=
  match fn with
  | Emit observer_ => zone_run (observer_next observer_ e)
  end.

(** An [Observable] is its subscribe function; [Observable.create(f)]
    calls [f] with the observer on each subscription. *)
Definition Observable := observer -> M unit.

Definition CreateEventObservable (eventName : string) (polyline : component)
    : Observable :=
  fun observer_ =>
    m <- polylines_get polyline ;;
    _ <- then_of m (OnAddListener eventName observer_) ;;
    ret tt.

Definition DeletePolyline (polyline : component) : M vpromise :=
  m <- polylines_get polyline ;;
  match m with
  | None => Promise_resolve
  | Some p => then_ p (OnDelete polyline)
  end.

Definition GetCoordinatesFromClick (e : value) : M value :=
  if falsy e then ret VNull else
  latLng <- get e "latLng" ;;
  if falsy latLng then ret VNull else
  latLng <- get e "latLng" ;;
  lat <- get latLng "lat" ;;
  if falsy lat then ret VNull else
  latLng <- get e "latLng" ;;
  lng <- get latLng "lng" ;;
  if falsy lng then ret VNull else
  latLng <- get e "latLng" ;;
  lat <- get latLng "lat" ;;
  latitude <- invoke lat ;;
  latLng <- get e "latLng" ;;
  lng <- get latLng "lng" ;;
  longitude <- invoke lng ;;
  ret (VObject [("latitude", latitude); ("longitude", longitude)]).

Definition GetNativeMarker (polyline : component) : M (option promise) :=
  polylines_get polyline.

Definition SetOptions (polyline : component) (options : IPolylineOptions)
    : M vpromise :=
  m <- polylines_get polyline ;;
  then_of m (OnSetOptions options).

Definition UpdatePolyline (polyline : component) : M vpromise :=
  m <- polylines_get polyline ;;
  match m with
  | None => Promise_resolve
  | Some p => then_ p (OnSetPath polyline)
  end.

(** The bodies of the arrow functions given to [then], applied to the
    value the promise was fulfilled with. *)
Definition react (r : reaction) (l : Polyline) : M unit :=
  match r with
  | OnAddListener eventName observer_ =>
      Polyline_AddListener l eventName (Emit observer_)
  | OnDelete polyline =>
      zone_run (Polyline_Delete l ;;; polylines_delete polyline)
  | OnSetOptions options =>
      Polyline_SetOptions l options
  | OnSetPath polyline =>
      zone_run (c <- read polyline ;; Polyline_SetPath l (Path c))
  end.

End GooglePolylineService.

Import GooglePolylineService.

(** ** What happens around the service

    The service's methods only register reactions; the runtime and the
    platform make them run.  These are the steps they take. *)

Definition queue_reaction (l : Polyline) (w : reaction * vpromise) : job :=
  Reaction w.1 l w.2.

Definition queue_rejection (reason : exn) (w : reaction * vpromise) : job :=
  Rejection reason w.2.

(** The platform fulfils a pending promise it returned: the waiting
    reactions are queued in the order of their registration.  A settled
    promise stays as it is. *)
Definition fulfil (p : promise) (l : Polyline) (s : state) : state :=
  match handles s !! p with
  | Some (Pending waiting) =>
      set_jobs (fun q => q ++ map (queue_reaction l) waiting)
        (set_handles (insert p (Fulfilled l)) s)
  | _ => s
  end.

Definition reject (p : promise) (reason : exn) (s : state) : state :=
  match handles s !! p with
  | Some (Pending waiting) =>
      set_jobs (fun q => q ++ map (queue_rejection reason) waiting)
        (set_handles (insert p (Rejected reason)) s)
  | _ => s
  end.

Definition settle (d : vpromise) (v : vstate) (s : state) : state :=
  set_voids (insert d v) s.

(** The runtime takes the first job of the queue.  A reaction is applied
    to the handle; the promise [then] returned is fulfilled when the
    reaction returns and rejected when it throws.  With no [onRejected]
    given, a rejection passes on to the derived promise. *)
Definition run_job (s : state) : state :=
  match jobs s with
  | [] => s
  | j :: q =>
      let s1 := set_jobs (fun _ => q) s in
      match j with
      | Reaction r l d =>
          match react r l s1 with
          | (Ok _, s2) => settle d VoidFulfilled s2
          | (Throw err, s2) => settle d (VoidRejected err) s2
          end
      | Rejection reason d => settle d (VoidRejected reason) s1
      end
  end.

Fixpoint run_jobs (n : nat) (s : state) : state :=
  match n with
  | O => s
  | S n' => run_jobs n' (run_job s)
  end.

(** The platform raises [eventName] on the handle [l]: every function
    registered for it is called with the event. *)
Definition registered (l : Polyline) (eventName : string)
    (ls : list (Polyline * string * listener)) : list listener :=
  omap (fun x => if decide (x.1 = (l, eventName)) then Some x.2 else None) ls.

Definition fire (l : Polyline) (eventName : string) (e : value) (s : state)
    : state :=
  fold_left (fun s' fn => (listener_apply fn e s').2)
            (registered l eventName (listeners s)) s.

(** Everything that can happen to a service instance: a call of one of
    its methods (a subscription, for the observable), or a step of the
    runtime, the platform or the component's owner. *)
Inductive action :=
  | CallAddPolyline (polyline : component)
  | CallSubscribe (eventName : string) (polyline : component)
      (observer_ : observer)
  | CallDeletePolyline (polyline : component)
  | CallGetCoordinatesFromClick (e : value)
  | CallGetNativeMarker (polyline : component)
  | CallSetOptions (polyline : component) (options : IPolylineOptions)
  | CallUpdatePolyline (polyline : component)
  | PlatformFulfils (p : promise) (l : Polyline)
  | PlatformRejects (p : promise) (reason : exn)
  | RuntimeRunsJob
  | PlatformFires (l : Polyline) (eventName : string) (e : value)
  | ComponentChanges (polyline : component) (c : MapPolylineComponent).

Definition step (a : action) (s : state) : state :=
  match a with
  | CallAddPolyline polyline => (AddPolyline polyline s).2
  | CallSubscribe eventName polyline observer_ =>
      (CreateEventObservable eventName polyline observer_ s).2
  | CallDeletePolyline polyline => (DeletePolyline polyline s).2
  | CallGetCoordinatesFromClick e => (GetCoordinatesFromClick e s).2
  | CallGetNativeMarker polyline => (GetNativeMarker polyline s).2
  | CallSetOptions polyline options => (SetOptions polyline options s).2
  | CallUpdatePolyline polyline => (UpdatePolyline polyline s).2
  | PlatformFulfils p l => fulfil p l s
  | PlatformRejects p reason => reject p reason s
  | RuntimeRunsJob => run_job s
  | PlatformFires l eventName e => fire l eventName e s
  | ComponentChanges polyline c =>
      set_components
        (fun cs x => if decide (x = polyline) then c else cs x) s
  end.

Definition run (acts : list action) (s : state) : state :=
  fold_left (fun s' a => step a s') acts s.

(** A new service: [_polylines] is empty; nothing has been called. *)
Definition initial (cs : component -> MapPolylineComponent) : state :=
  {| _polylines := ∅; components := cs; handles := ∅; voids := ∅;
     jobs := []; listeners := []; zone := 0; trace := [] |}.

Definition reachable (s : state) : Prop :=
  exists cs acts, s = run acts (initial cs).

(** ** Sample data *)

Definition sample_component : MapPolylineComponent :=
  {| Id := VNumber (Finite false 7 0);
     Clickable := VBoolean true;
     Draggable := VBoolean false;
     Editable := VBoolean false;
     Geodesic := VBoolean true;
     Path := VObject [("0", VObject [("latitude", VNumber (Finite false 3 0));
                                     ("longitude", VNumber (Finite true 5 0))])];
     StrokeColor := VString "red";
     StrokeOpacity := VNumber (Finite false 1 (-1));
     StrokeWeight := VNumber (Finite false 1 1);
     Visible := VBoolean true;
     zIndex := VNumber (Zero false) |}.

Definition sample_state : state := initial (fun _ => sample_component).

Definition sample_click : value :=
  VObject [("latLng", VObject [("lat", VFunction (Returns (VNumber (Finite false 3 0))));
                               ("lng", VFunction (Returns (VNumber (Finite true 5 0))))])].

Definition sample_scenario : list action :=
  [CallAddPolyline 1; CallSubscribe "click" 1 9; PlatformFulfils 1 4;
   RuntimeRunsJob; PlatformFires 4 "click" sample_click].

(** ** Predicates of the statements *)

(** The four checks of the method, as the source orders them. *)
Definition some_check_fails (e : value) : Prop :=
  falsy e = true \/
  falsy (member e "latLng") = true \/
  falsy (member (member e "latLng") "lat") = true \/
  falsy (member (member e "latLng") "lng") = true.

Definition coordinates (latitude longitude : value) : value :=
  VObject [("latitude", latitude); ("longitude", longitude)].

(** The behaviour as the specification words it: [null] exactly when a
    check fails, and otherwise an object of the two coordinates is
    returned. *)
Definition null_or_coordinates (e : value) (s : state) : Prop :=
  ((GetCoordinatesFromClick e s).1 = Ok VNull <-> some_check_fails e) /\
  (~ some_check_fails e ->
   exists latitude longitude,
     (GetCoordinatesFromClick e s).1 = Ok (coordinates latitude longitude)).

(** An event whose [latLng] carries numbers where the platform's
    [LatLng] has methods. *)
Definition plain_click : value :=
  VObject [("latLng", VObject [("lat", VNumber (Finite false 3 0));
                               ("lng", VNumber (Finite true 5 0))])].

(** Whether a value can be called. *)
Definition callable (v : value) : bool :=
  match v with
  | VFunction _ => true
  | _ => false
  end.

Definition derived_of (j : job) : vpromise :=
  match j with
  | Reaction _ _ d => d
  | Rejection _ d => d
  end.

(** The promises the state refers to exist: the promise of every queued
    job and of every waiting reaction is a cell of [voids], and every
    promise kept in the map is a cell of [handles]. *)
Record wf (s : state) : Prop := {
  wf_jobs : forall j, j ∈ jobs s -> derived_of j ∈ dom (voids s);
  wf_waiting : forall p ws w,
      handles s !! p = Some (Pending ws) -> w ∈ ws -> w.2 ∈ dom (voids s);
  wf_polylines : forall c p,
      _polylines s !! c = Some p -> p ∈ dom (handles s)
}.

(** The handle a promise gives, or may still give. *)
Definition may_give (h : hstate) (l : Polyline) : Prop :=
  match h with
  | Pending _ => True
  | Fulfilled l' => l' = l
  | Rejected _ => False
  end.

(** An entry of the trace respects the zone when, if it is a call of
    [observer.next], it was made at a depth of at least one. *)
Definition in_zone (x : nat * call) : Prop :=
  match x.2 with
  | NextCall _ _ => 1 <= x.1
  | _ => True
  end.

(** The promise [d] that [DeletePolyline(polyline)] returned for the
    map's promise [p] is tied to its reaction: a job that settles [d]
    either applies the reaction of [DeletePolyline] to the handle [p]
    gave, or passes on a rejection; a waiting reaction that settles [d]
    is that reaction, waiting on [p]. *)
Record awaits_delete (polyline : component) (p : promise) (d : vpromise)
    (s : state) : Prop := {
  awaits_cell : d ∈ dom (voids s);
  awaits_promise : p ∈ dom (handles s);
  awaits_jobs : forall j, j ∈ jobs s -> derived_of j = d ->
      (exists l, j = Reaction (OnDelete polyline) l d /\
                 handles s !! p = Some (Fulfilled l)) \/
      (exists reason, j = Rejection reason d);
  awaits_waiting : forall p' ws w,
      handles s !! p' = Some (Pending ws) -> w ∈ ws -> w.2 = d ->
      p' = p /\ w.1 = OnDelete polyline
}.

(** The part of the state that promises and the map live in. *)
Definition same_core (s s' : state) : Prop :=
  jobs s' = jobs s /\ voids s' = voids s /\ handles s' = handles s /\
  _polylines s' = _polylines s.

(** What a call that only registers [r] on the promise [p] does to the
    state [s]: it makes the new pending promise [d], and puts [r] among
    the reactions waiting on [p] or, [p] being settled, queues the one job
    for it.  The map, the components, the listeners, the zone and the
    trace of external calls are as they were. *)
Definition only_registers (p : promise) (r : reaction) (d : vpromise)
    (s s' : state) : Prop :=
  voids s !! d = None /\
  voids s' = <[d := VoidPending]> (voids s) /\
  _polylines s' = _polylines s /\
  components s' = components s /\
  listeners s' = listeners s /\
  zone s' = zone s /\
  trace s' = trace s /\
  match default (Pending []) (handles s !! p) with
  | Pending ws =>
      handles s' = <[p := Pending (ws ++ [(r, d)])]> (handles s) /\
      jobs s' = jobs s
  | Fulfilled l =>
      handles s' = handles s /\ jobs s' = jobs s ++ [Reaction r l d]
  | Rejected reason =>
      handles s' = handles s /\ jobs s' = jobs s ++ [Rejection reason d]
  end.

(** ** Predicates of the further properties *)

(** The reason a promise is rejected with, or may still be. *)
Definition may_fail (h : hstate) (reason : exn) : Prop :=
  match h with
  | Pending _ => True
  | Fulfilled _ => False
  | Rejected reason' => reason' = reason
  end.

(** How many levels of [_zone.run] the source puts around each external
    call: [Delete], [SetPath] and [observer.next] are made inside one
    [_zone.run]; [CreatePolyline], [AddListener] and [SetOptions] are made
    with none. *)
Definition zone_levels (c : call) : nat :=
  match c with
  | DeleteCall _ | SetPathCall _ _ | NextCall _ _ => 1
  | CreatePolylineCall _ _ | AddListenerCall _ _ _ | SetOptionsCall _ _ => 0
  end.

Definition at_levels (z : nat) (x : nat * call) : Prop :=
  x.1 = z + zone_levels x.2.

(** What a run has asked for.  The platform has given the handle [l] when
    it has fulfilled a promise with it; a registered function has been
    requested when the method that registers it has been called with the
    values it captures; an external call is justified when the run holds
    the method call, and the platform's steps, it takes to make it. *)
Definition given (acts : list action) (l : Polyline) : Prop :=
  exists p, PlatformFulfils p l ∈ acts.

Definition requested (acts : list action) (r : reaction) : Prop :=
  match r with
  | OnAddListener eventName observer_ =>
      exists polyline, CallSubscribe eventName polyline observer_ ∈ acts
  | OnDelete polyline => CallDeletePolyline polyline ∈ acts
  | OnSetOptions options =>
      exists polyline, CallSetOptions polyline options ∈ acts
  | OnSetPath polyline => CallUpdatePolyline polyline ∈ acts
  end.

Definition justified (acts : list action) (c : call) : Prop :=
  match c with
  | CreatePolylineCall _ _ => exists polyline, CallAddPolyline polyline ∈ acts
  | AddListenerCall l eventName (Emit observer_) =>
      requested acts (OnAddListener eventName observer_) /\ given acts l
  | DeleteCall l =>
      (exists polyline, requested acts (OnDelete polyline)) /\ given acts l
  | SetOptionsCall l options =>
      requested acts (OnSetOptions options) /\ given acts l
  | SetPathCall l _ =>
      (exists polyline, requested acts (OnSetPath polyline)) /\ given acts l
  | NextCall observer_ e =>
      exists l eventName,
        requested acts (OnAddListener eventName observer_) /\
        given acts l /\ PlatformFires l eventName e ∈ acts
  end.

(** Everything in the state is accounted for by the run that led to it. *)
Record accounted (acts : list action) (s : state) : Prop := {
  acc_jobs : forall r l d,
      Reaction r l d ∈ jobs s -> requested acts r /\ given acts l;
  acc_waiting : forall p ws w,
      handles s !! p = Some (Pending ws) -> w ∈ ws -> requested acts w.1;
  acc_fulfilled : forall p l,
      handles s !! p = Some (Fulfilled l) -> PlatformFulfils p l ∈ acts;
  acc_listeners : forall l eventName observer_,
      (l, eventName, Emit observer_) ∈ listeners s ->
      requested acts (OnAddListener eventName observer_) /\ given acts l;
  acc_trace : forall x, x ∈ trace s -> justified acts x.2;
  acc_polylines : forall polyline p,
      _polylines s !! polyline = Some p ->
      CallAddPolyline polyline ∈ acts /\
      exists depth o, (depth, CreatePolylineCall o p) ∈ trace s
}.

(** ** Sample states *)

(** A session that uses every method on component [1], whose promise
    the platform fulfils with handle [4]. *)
Definition sample_session : list action :=
  sample_scenario
  ++ [CallSetOptions 1 (GooglePolylineService.options_of sample_component);
      RuntimeRunsJob; CallUpdatePolyline 1; RuntimeRunsJob;
      CallDeletePolyline 1; RuntimeRunsJob].

(** A state in which component [1] has been added and its promise is
    pending. *)
Definition tracked_state : state := run [CallAddPolyline 1] sample_state.

(** ** Basic facts about the state and the runtime *)

Lemma zone_run_emit (c : call) (s : state) :
  zone_run (emit c) s
  = (Ok tt, set_trace (fun t => t ++ [(S (zone s), c)]) s).
Proof. by destruct s. Qed.

Lemma fresh_void_unused (s : state) : voids s !! fresh (dom (voids s)) = None.
Proof. apply not_elem_of_dom, is_fresh. Qed.

(** ** AddPolyline *)

Lemma AddPolyline_unfold (polyline : component) (s : state) :
  AddPolyline polyline s
  = (Ok tt,
     set_polylines (insert polyline (fresh (dom (handles s))))
       (CreatePolyline (options_of (components s polyline)) s).2).
Proof. reflexivity. Qed.

(** C1. [AddPolyline] builds the options from the component's
    properties, field by field and unchanged, and hands exactly that
    object to [MapService.CreatePolyline]: the call is the only one made,
    and it carries the object. *)
Theorem AddPolyline_forwards_properties (polyline : component) (s : state) :
  let c := components s polyline in
  exists (o : IPolylineOptions) (p : promise) (s1 : state),
    id o = Id c /\ clickable o = Clickable c /\ draggable o = Draggable c /\
    editable o = Editable c /\ geodesic o = Geodesic c /\ path o = Path c /\
    strokeColor o = StrokeColor c /\ strokeOpacity o = StrokeOpacity c /\
    strokeWeight o = StrokeWeight c /\ visible o = Visible c /\
    zIndex_ o = zIndex c /\
    CreatePolyline o s = (Ok p, s1) /\
    AddPolyline polyline s = (Ok tt, set_polylines (insert polyline p) s1) /\
    trace (AddPolyline polyline s).2
      = trace s ++ [(zone s, CreatePolylineCall o p)] /\
    components (AddPolyline polyline s).2 = components s.
Proof.
  intros c.
  exists (options_of c), (fresh (dom (handles s))),
         (CreatePolyline (options_of c) s).2.
  repeat split; reflexivity.
Qed.

(** ** The map as the service's state *)

(** C2. After [AddPolyline(polyline)] the map associates [polyline] with
    the promise [MapService.CreatePolyline] returned and is otherwise as
    before; [GetNativeMarker] returns, for every component and in every
    state, exactly what the map holds for it, and changes nothing.  The
    state after [AddPolyline] is the state [CreatePolyline] left, with
    that one entry set: the promise is the new one of the recorded
    [CreatePolyline] call, and nothing but the map is changed by the
    service itself. *)
Theorem map_holds_returned_promise (polyline : component) (s : state) :
  exists (p : promise) (s1 s2 : state),
    CreatePolyline (options_of (components s polyline)) s = (Ok p, s1) /\
    AddPolyline polyline s = (Ok tt, s2) /\
    _polylines s2 = <[polyline := p]> (_polylines s) /\
    _polylines s2 !! polyline = Some p /\
    GetNativeMarker polyline s2 = (Ok (Some p), s2) /\
    (forall (c : component) (s' : state),
        GetNativeMarker c s' = (Ok (_polylines s' !! c), s')) /\
    s2 = set_polylines (insert polyline p) s1 /\
    trace s2
    = trace s ++ [(zone s, CreatePolylineCall (options_of (components s polyline))
                             p)] /\
    handles s !! p = None /\
    handles s2 = <[p := Pending []]> (handles s) /\
    voids s2 = voids s /\ jobs s2 = jobs s /\ listeners s2 = listeners s /\
    zone s2 = zone s /\ components s2 = components s.
Proof.
  exists (fresh (dom (handles s))),
         (CreatePolyline (options_of (components s polyline)) s).2,
         (AddPolyline polyline s).2.
  split; [reflexivity|]. split; [reflexivity|]. split; [reflexivity|].
  assert (_polylines (AddPolyline polyline s).2 !! polyline
          = Some (fresh (dom (handles s)))) as Hlook.
  { rewrite AddPolyline_unfold. cbn. apply lookup_insert_eq. }
  split; [exact Hlook|]. split.
  { unfold GetNativeMarker, polylines_get. by rewrite Hlook. }
  split; [reflexivity|]. split; [reflexivity|]. split; [reflexivity|].
  split; [apply not_elem_of_dom, is_fresh|]. by repeat split.
Qed.

(** ** GetCoordinatesFromClick *)

Lemma bind_ret_l {A B} (a : A) (k : A -> M B) : bind (ret a) k = k a.
Proof. reflexivity. Qed.

Lemma truthy_get (v : value) (k : string) :
  falsy v = false -> get v k = ret (member v k).
Proof. by destruct v. Qed.

Lemma some_check_fails_dec (e : value) :
  {some_check_fails e} + {~ some_check_fails e}.
Proof.
  unfold some_check_fails.
  destruct (falsy e); [left; tauto|].
  destruct (falsy (member e "latLng")); [left; tauto|].
  destruct (falsy (member (member e "latLng") "lat")); [left; tauto|].
  destruct (falsy (member (member e "latLng") "lng")); [left; tauto|].
  right. intros [|[|[|]]]; discriminate.
Qed.

Lemma invoke_frame (f : value) (s : state) : (invoke f s).2 = s.
Proof. by destruct f as [| | | | | |[]]. Qed.

(** Resolve the property reads [e.latLng], [e.latLng.lat] and
    [e.latLng.lng], [e] and [e.latLng] being truthy. *)
Ltac resolve_reads He Hll :=
  repeat first
    [ rewrite bind_ret_l
    | rewrite (truthy_get _ "latLng" He)
    | rewrite (truthy_get _ "lat" Hll)
    | rewrite (truthy_get _ "lng" Hll) ].

Lemma GetCoordinatesFromClick_checked (e : value) :
  ~ some_check_fails e ->
  GetCoordinatesFromClick e
  = (latitude <- invoke (member (member e "latLng") "lat") ;;
     longitude <- invoke (member (member e "latLng") "lng") ;;
     ret (coordinates latitude longitude)).
Proof.
  intros Hno. unfold some_check_fails in Hno.
  destruct (falsy e) eqn:He; [tauto|].
  destruct (falsy (member e "latLng")) eqn:Hll; [tauto|].
  destruct (falsy (member (member e "latLng") "lat")) eqn:Hlat; [tauto|].
  destruct (falsy (member (member e "latLng") "lng")) eqn:Hlng; [tauto|].
  unfold GetCoordinatesFromClick. rewrite He.
  resolve_reads He Hll. rewrite Hll.
  resolve_reads He Hll. rewrite Hlat.
  resolve_reads He Hll. rewrite Hlng.
  resolve_reads He Hll.
  destruct (member (member e "latLng") "lat") as [| | | | | |[a|a]];
    try reflexivity.
  cbn [invoke]. by resolve_reads He Hll.
Qed.

Lemma GetCoordinatesFromClick_null (e : value) :
  some_check_fails e -> GetCoordinatesFromClick e = ret VNull.
Proof.
  intros Hsome. unfold GetCoordinatesFromClick.
  destruct (falsy e) eqn:He; [reflexivity|].
  resolve_reads He He.
  destruct (falsy (member e "latLng")) eqn:Hll; [reflexivity|].
  resolve_reads He Hll.
  destruct (falsy (member (member e "latLng") "lat")) eqn:Hlat; [reflexivity|].
  resolve_reads He Hll.
  destruct (falsy (member (member e "latLng") "lng")) eqn:Hlng; [reflexivity|].
  unfold some_check_fails in Hsome. rewrite He, Hll, Hlat, Hlng in Hsome.
  destruct Hsome as [|[|[|]]]; discriminate.
Qed.

Lemma GetCoordinatesFromClick_frame (e : value) (s : state) :
  (GetCoordinatesFromClick e s).2 = s.
Proof.
  destruct (some_check_fails_dec e) as [H|H].
  - by rewrite GetCoordinatesFromClick_null.
  - rewrite GetCoordinatesFromClick_checked by done. unfold bind.
    pose proof (invoke_frame (member (member e "latLng") "lat") s) as H1.
    destruct (invoke (member (member e "latLng") "lat") s) as [[a|err] s1];
      cbn in H1; subst; [|done].
    pose proof (invoke_frame (member (member e "latLng") "lng") s) as H2.
    destruct (invoke (member (member e "latLng") "lng") s) as [[b|err] s2];
      cbn in H2; subst; done.
Qed.

(** C4, as worded, fails on an event whose [lat] and [lng] are truthy
    but are not functions: every check passes, and the call [lat()]
    throws, so neither [null] nor an object is returned. *)
Lemma plain_click_returns_nothing :
  ~ null_or_coordinates plain_click sample_state.
Proof.
  intros [_ Hobj].
  destruct Hobj as (a & b & Hret).
  - intros [H|[H|[H|H]]]; discriminate H.
  - discriminate Hret.
Qed.

(** C4, amended.  [GetCoordinatesFromClick] returns [null] exactly when
    [e], [e.latLng], [e.latLng.lat] or [e.latLng.lng] is falsy, and it
    never changes the state.  When all four are truthy and [lat] and
    [lng] are functions that return, it returns the object of their two
    results; when [lat] is truthy and not a function, or [lat] returns
    and [lng] is truthy and not a function, the call throws a
    [TypeError], the checks being null checks only. *)
Theorem GetCoordinatesFromClick_null_checks (e : value) (s : state) :
  ((GetCoordinatesFromClick e s).1 = Ok VNull <-> some_check_fails e) /\
  (GetCoordinatesFromClick e s).2 = s /\
  (forall latitude longitude,
      ~ some_check_fails e ->
      member (member e "latLng") "lat" = VFunction (Returns latitude) ->
      member (member e "latLng") "lng" = VFunction (Returns longitude) ->
      GetCoordinatesFromClick e s
      = (Ok (VObject [("latitude", latitude); ("longitude", longitude)]), s)) /\
  (~ some_check_fails e ->
   callable (member (member e "latLng") "lat") = false ->
   GetCoordinatesFromClick e s = (Throw (TypeError "not a function"), s)) /\
  (forall latitude,
      ~ some_check_fails e ->
      member (member e "latLng") "lat" = VFunction (Returns latitude) ->
      callable (member (member e "latLng") "lng") = false ->
      GetCoordinatesFromClick e s = (Throw (TypeError "not a function"), s)).
Proof.
  split; [|split; [apply GetCoordinatesFromClick_frame|split; [|split]]].
  - split.
    + intros Hnull. destruct (some_check_fails_dec e) as [|Hno]; [done|].
      exfalso. revert Hnull.
      rewrite GetCoordinatesFromClick_checked by done. unfold bind.
      destruct (invoke (member (member e "latLng") "lat") s) as [[a|err] s1];
        [|discriminate].
      destruct (invoke (member (member e "latLng") "lng") s1) as [[b|err] s2];
        discriminate.
    + intros Hsome. by rewrite GetCoordinatesFromClick_null.
  - intros a b Hno Hlat Hlng.
    rewrite GetCoordinatesFromClick_checked by done.
    by rewrite Hlat, Hlng.
  - intros Hno Hlat.
    rewrite GetCoordinatesFromClick_checked by done.
    by destruct (member (member e "latLng") "lat").
  - intros a Hno Hlat Hlng.
    rewrite GetCoordinatesFromClick_checked by done. rewrite Hlat.
    by destruct (member (member e "latLng") "lng").
Qed.

Lemma GetCoordinatesFromClick_null_checks_witness :
  ~ some_check_fails sample_click /\
  GetCoordinatesFromClick sample_click sample_state
  = (Ok (VObject [("latitude", VNumber (Finite false 3 0));
                  ("longitude", VNumber (Finite true 5 0))]), sample_state) /\
  ~ some_check_fails plain_click /\
  GetCoordinatesFromClick plain_click sample_state
  = (Throw (TypeError "not a function"), sample_state).
Proof.
  assert (~ some_check_fails sample_click) as Hs.
  { intros [H|[H|[H|H]]]; discriminate H. }
  assert (~ some_check_fails plain_click) as Hp.
  { intros [H|[H|[H|H]]]; discriminate H. }
  split; [exact Hs|]. split.
  - apply (GetCoordinatesFromClick_null_checks sample_click sample_state);
      [exact Hs|reflexivity|reflexivity].
  - split; [exact Hp|].
    apply (GetCoordinatesFromClick_null_checks plain_click sample_state);
      [exact Hp|reflexivity].
Defined.

(** ** Components that are not in the map *)

Lemma DeletePolyline_absent (polyline : component) (s : state) :
  _polylines s !! polyline = None ->
  DeletePolyline polyline s = Promise_resolve s.
Proof.
  intros Hnone. unfold DeletePolyline, polylines_get, bind. by rewrite Hnone.
Qed.

Lemma UpdatePolyline_absent (polyline : component) (s : state) :
  _polylines s !! polyline = None ->
  UpdatePolyline polyline s = Promise_resolve s.
Proof.
  intros Hnone. unfold UpdatePolyline, polylines_get, bind. by rewrite Hnone.
Qed.

Lemma Promise_resolve_spec (s : state) :
  let d := fresh (dom (voids s)) in
  exists s',
    Promise_resolve s = (Ok d, s') /\
    voids s !! d = None /\
    voids s' = <[d := VoidFulfilled]> (voids s) /\
    voids s' !! d = Some VoidFulfilled /\
    _polylines s' = _polylines s /\ handles s' = handles s /\
    jobs s' = jobs s /\ listeners s' = listeners s /\
    trace s' = trace s /\ zone s' = zone s /\ components s' = components s.
Proof.
  intros d. eexists. split; [reflexivity|].
  split; [apply fresh_void_unused|].
  split; [reflexivity|]. split; [apply lookup_insert_eq|]. by repeat split.
Qed.

(** C5. For a component with no entry in the map, [DeletePolyline] and
    [UpdatePolyline] return normally, with a promise that is new and
    already fulfilled; the map, the handles' promises, the job queue, the
    listeners and the trace of external calls are as before. *)
Theorem missing_entry_resolves (polyline : component) (s : state) :
  _polylines s !! polyline = None ->
  exists (d : vpromise) (s' : state),
    DeletePolyline polyline s = (Ok d, s') /\
    UpdatePolyline polyline s = (Ok d, s') /\
    voids s !! d = None /\
    voids s' = <[d := VoidFulfilled]> (voids s) /\
    voids s' !! d = Some VoidFulfilled /\
    _polylines s' = _polylines s /\
    handles s' = handles s /\
    jobs s' = jobs s /\
    listeners s' = listeners s /\
    trace s' = trace s /\
    zone s' = zone s /\
    components s' = components s.
Proof.
  intros Hnone.
  rewrite DeletePolyline_absent, UpdatePolyline_absent by done.
  destruct (Promise_resolve_spec s) as (s' & Hres & Hrest).
  exists (fresh (dom (voids s))), s'. by repeat split; try apply Hrest.
Qed.

Lemma missing_entry_resolves_witness :
  _polylines sample_state !! 1%positive = None /\
  exists (d : vpromise) (s' : state),
    DeletePolyline 1 sample_state = (Ok d, s') /\
    UpdatePolyline 1 sample_state = (Ok d, s') /\
    voids sample_state !! d = None /\
    voids s' = <[d := VoidFulfilled]> (voids sample_state) /\
    voids s' !! d = Some VoidFulfilled /\
    _polylines s' = _polylines sample_state /\
    handles s' = handles sample_state /\
    jobs s' = jobs sample_state /\
    listeners s' = listeners sample_state /\
    trace s' = trace sample_state /\
    zone s' = zone sample_state /\
    components s' = components sample_state.
Proof.
  split; [reflexivity|].
  apply (missing_entry_resolves 1 sample_state). reflexivity.
Defined.

(** C8. For a component with no entry in the map the lookup gives
    [undefined].  [SetOptions] and a subscription to the observable of
    [CreateEventObservable] call [then] on it and throw a [TypeError];
    [GetNativeMarker] returns [undefined]; none of them changes the
    state.  [DeletePolyline] and [UpdatePolyline] test for the missing
    entry and return normally. *)
Theorem unregistered_component_unguarded (polyline : component) (s : state) :
  _polylines s !! polyline = None ->
  (forall options, exists msg,
      SetOptions polyline options s = (Throw (TypeError msg), s)) /\
  (forall eventName observer_, exists msg,
      CreateEventObservable eventName polyline observer_ s
      = (Throw (TypeError msg), s)) /\
  GetNativeMarker polyline s = (Ok None, s) /\
  (exists d s', DeletePolyline polyline s = (Ok d, s')) /\
  (exists d s', UpdatePolyline polyline s = (Ok d, s')).
Proof.
  intros Hnone.
  unfold SetOptions, CreateEventObservable, GetNativeMarker, DeletePolyline,
    UpdatePolyline, polylines_get, bind.
  rewrite Hnone. repeat split; eauto.
Qed.

Lemma unregistered_component_unguarded_witness :
  _polylines sample_state !! 1%positive = None /\
  (forall options, exists msg,
      SetOptions 1 options sample_state = (Throw (TypeError msg), sample_state)) /\
  (forall eventName observer_, exists msg,
      CreateEventObservable eventName 1 observer_ sample_state
      = (Throw (TypeError msg), sample_state)) /\
  GetNativeMarker 1 sample_state = (Ok None, sample_state) /\
  (exists d s', DeletePolyline 1 sample_state = (Ok d, s')) /\
  (exists d s', UpdatePolyline 1 sample_state = (Ok d, s')).
Proof.
  split; [reflexivity|].
  apply (unregistered_component_unguarded 1 sample_state). reflexivity.
Defined.

(** ** The runtime's steps, field by field *)

Lemma then_spec (p : promise) (r : reaction) (s : state) :
  let d := fresh (dom (voids s)) in
  exists s',
    then_ p r s = (Ok d, s') /\
    voids s' = <[d := VoidPending]> (voids s) /\
    _polylines s' = _polylines s /\ components s' = components s /\
    listeners s' = listeners s /\ zone s' = zone s /\ trace s' = trace s /\
    match default (Pending []) (handles s !! p) with
    | Pending ws =>
        handles s' = <[p := Pending (ws ++ [(r, d)])]> (handles s) /\
        jobs s' = jobs s
    | Fulfilled l =>
        handles s' = handles s /\ jobs s' = jobs s ++ [Reaction r l d]
    | Rejected reason =>
        handles s' = handles s /\ jobs s' = jobs s ++ [Rejection reason d]
    end.
Proof.
  intros d. unfold then_. fold d.
  destruct (default (Pending []) (handles s !! p)); eexists; by repeat split.
Qed.

Lemma react_spec (r : reaction) (l : Polyline) (s : state) :
  exists s',
    react r l s = (Ok tt, s') /\
    voids s' = voids s /\ handles s' = handles s /\ jobs s' = jobs s /\
    components s' = components s /\ zone s' = zone s /\
    match r with
    | OnAddListener eventName observer_ =>
        trace s' = trace s ++ [(zone s, AddListenerCall l eventName (Emit observer_))] /\
        listeners s' = listeners s ++ [(l, eventName, Emit observer_)] /\
        _polylines s' = _polylines s
    | OnDelete polyline =>
        trace s' = trace s ++ [(S (zone s), DeleteCall l)] /\
        listeners s' = listeners s /\
        _polylines s' = delete polyline (_polylines s)
    | OnSetOptions options =>
        trace s' = trace s ++ [(zone s, SetOptionsCall l options)] /\
        listeners s' = listeners s /\
        _polylines s' = _polylines s
    | OnSetPath polyline =>
        trace s' = trace s
                   ++ [(S (zone s), SetPathCall l (Path (components s polyline)))] /\
        listeners s' = listeners s /\
        _polylines s' = _polylines s
    end.
Proof. destruct r; eexists; by repeat split. Qed.

Lemma listener_apply_spec (fn : listener) (e : value) (s : state) :
  exists observer_,
    fn = Emit observer_ /\
    listener_apply fn e s
    = (Ok tt, set_trace (fun t => t ++ [(S (zone s), NextCall observer_ e)]) s).
Proof. destruct fn as [o]. exists o. split; [done|]. apply zone_run_emit. Qed.

Lemma run_job_head (j : job) (q : list job) (s : state) :
  jobs s = j :: q ->
  exists s',
    run_job s = s' /\
    jobs s' = q /\ handles s' = handles s /\ components s' = components s /\
    zone s' = zone s /\
    match j with
    | Reaction r l d =>
        voids s' = <[d := VoidFulfilled]> (voids s) /\
        trace s' = trace (react r l s).2 /\
        _polylines s' = _polylines (react r l s).2 /\
        listeners s' = listeners (react r l s).2
    | Rejection reason d =>
        voids s' = <[d := VoidRejected reason]> (voids s) /\
        trace s' = trace s /\ _polylines s' = _polylines s /\
        listeners s' = listeners s
    end.
Proof.
  intros Hj. unfold run_job. rewrite Hj.
  destruct j as [r l d|reason d]; [|eexists; by repeat split].
  destruct r; eexists; by repeat split.
Qed.

Lemma run_job_idle (s : state) : jobs s = [] -> run_job s = s.
Proof. intros H. unfold run_job. by rewrite H. Qed.

Lemma run_job_frame (s : state) :
  jobs (run_job s) = drop 1 (jobs s) /\ handles (run_job s) = handles s /\
  components (run_job s) = components s /\ zone (run_job s) = zone s.
Proof.
  destruct (jobs s) as [|j q] eqn:Hj.
  - by rewrite run_job_idle.
  - by destruct (run_job_head j q s Hj) as (s' & -> & ? & ? & ? & ? & _).
Qed.

Lemma run_jobs_frame (n : nat) (s : state) :
  jobs (run_jobs n s) = drop n (jobs s) /\
  handles (run_jobs n s) = handles s /\
  components (run_jobs n s) = components s /\
  zone (run_jobs n s) = zone s.
Proof.
  revert s. induction n as [|n IH]; intros s; cbn [run_jobs].
  - by rewrite drop_0.
  - destruct (IH (run_job s)) as (-> & -> & -> & ->).
    destruct (run_job_frame s) as (-> & -> & -> & ->).
    by rewrite drop_drop.
Qed.

(** The jobs ahead of a promise's own job do not settle it. *)
Lemma run_jobs_other (d : vpromise) (n : nat) (s : state) :
  Forall (fun j => derived_of j <> d) (take n (jobs s)) ->
  voids (run_jobs n s) !! d = voids s !! d.
Proof.
  revert s. induction n as [|n IH]; intros s Hahead; [done|].
  cbn [run_jobs]. destruct (jobs s) as [|j q] eqn:Hj.
  - rewrite run_job_idle by done. apply IH. by rewrite Hj, take_nil.
  - cbn [take] in Hahead. apply Forall_cons in Hahead as [Hne Hahead].
    destruct (run_job_head j q s Hj) as (s' & Hs' & Hq & _ & _ & _ & Hv).
    rewrite Hs'. rewrite IH by (by rewrite Hq).
    destruct j as [r l d'|reason d']; destruct Hv as (-> & _);
      by rewrite lookup_insert_ne.
Qed.

Lemma fulfil_spec (p : promise) (l : Polyline) (s : state) :
  voids (fulfil p l s) = voids s /\ _polylines (fulfil p l s) = _polylines s /\
  components (fulfil p l s) = components s /\
  listeners (fulfil p l s) = listeners s /\ zone (fulfil p l s) = zone s /\
  trace (fulfil p l s) = trace s /\
  match handles s !! p with
  | Some (Pending ws) =>
      handles (fulfil p l s) = <[p := Fulfilled l]> (handles s) /\
      jobs (fulfil p l s) = jobs s ++ map (queue_reaction l) ws
  | _ => handles (fulfil p l s) = handles s /\ jobs (fulfil p l s) = jobs s
  end.
Proof.
  unfold fulfil. destruct (handles s !! p) as [[ws|l'|reason]|]; by repeat split.
Qed.

Lemma reject_spec (p : promise) (reason : exn) (s : state) :
  voids (reject p reason s) = voids s /\
  _polylines (reject p reason s) = _polylines s /\
  components (reject p reason s) = components s /\
  listeners (reject p reason s) = listeners s /\
  zone (reject p reason s) = zone s /\
  trace (reject p reason s) = trace s /\
  match handles s !! p with
  | Some (Pending ws) =>
      handles (reject p reason s) = <[p := Rejected reason]> (handles s) /\
      jobs (reject p reason s) = jobs s ++ map (queue_rejection reason) ws
  | _ => handles (reject p reason s) = handles s /\
         jobs (reject p reason s) = jobs s
  end.
Proof.
  unfold reject. destruct (handles s !! p) as [[ws|l'|reason']|]; by repeat split.
Qed.

(** A reaction registered on a promise that gives [l] is the last job of
    the queue once the promise is fulfilled; the jobs ahead of it belong
    to other promises. *)
Lemma then_fulfil_queue (p : promise) (r : reaction) (l : Polyline)
    (h : hstate) (s : state) :
  handles s !! p = Some h -> may_give h l ->
  let d := fresh (dom (voids s)) in
  let s1 := fulfil p l (then_ p r s).2 in
  (then_ p r s).1 = Ok d /\
  voids s1 = <[d := VoidPending]> (voids s) /\
  _polylines s1 = _polylines s /\ components s1 = components s /\
  zone s1 = zone s /\ trace s1 = trace s /\
  exists q,
    jobs s1 = q ++ [Reaction r l d] /\
    (wf s -> Forall (fun j => derived_of j <> d) q).
Proof.
  intros Hp Hgive d s1.
  destruct (then_spec p r s) as (s0 & Hthen & Hv & Hm & Hc & Hl & Hz & Ht & Hh).
  fold d in Hthen, Hv, Hh. subst s1. rewrite Hthen. cbn [fst snd].
  destruct (fulfil_spec p l s0) as (Hv1 & Hm1 & Hc1 & _ & Hz1 & Ht1 & Hh1).
  rewrite Hv1, Hm1, Hc1, Hz1, Ht1.
  do 6 (split; [congruence|]).
  assert (forall j, wf s -> j ∈ jobs s -> derived_of j <> d) as Hjobs.
  { intros j Hwf Hin Heq. apply (is_fresh (dom (voids s))). fold d.
    rewrite <- Heq. by apply (wf_jobs s Hwf j). }
  rewrite Hp in Hh. cbn [default] in Hh.
  destruct h as [ws|l'|reason]; [| |done].
  - destruct Hh as [Hh Hq]. rewrite Hh, lookup_insert_eq in Hh1.
    destruct Hh1 as [_ ->]. rewrite Hq, map_app, app_assoc.
    exists (jobs s ++ map (queue_reaction l) ws). split; [done|].
    intros Hwf. apply Forall_app. split.
    + apply Forall_forall. intros j Hin. by apply Hjobs.
    + apply Forall_forall. intros j [w [-> Hw]]%list_elem_of_fmap. cbn.
      intros Heq. apply (is_fresh (dom (voids s))). fold d. rewrite <- Heq.
      by apply (wf_waiting s Hwf p ws w).
  - cbn in Hgive. subst l'. destruct Hh as [Hh Hq].
    rewrite Hh, Hp in Hh1. destruct Hh1 as [_ ->]. rewrite Hq.
    exists (jobs s). split; [done|].
    intros Hwf. apply Forall_forall. intros j Hin. by apply Hjobs.
Qed.

(** The registered reaction comes to the head of the queue after the jobs
    ahead of it have run; its promise is still pending then. *)
Lemma then_fulfil_head (p : promise) (r : reaction) (l : Polyline)
    (h : hstate) (s : state) :
  handles s !! p = Some h -> may_give h l ->
  let d := fresh (dom (voids s)) in
  let s1 := fulfil p l (then_ p r s).2 in
  let s2 := run_jobs (pred (length (jobs s1))) s1 in
  (then_ p r s).1 = Ok d /\
  jobs s2 = [Reaction r l d] /\
  zone s2 = zone s /\ components s2 = components s /\
  (wf s -> voids s2 !! d = Some VoidPending).
Proof.
  intros Hp Hgive d s1 s2.
  destruct (then_fulfil_queue p r l h s Hp Hgive)
    as (Hd & Hv & _ & Hc & Hz & _ & q & Hq & Hahead).
  fold d s1 in Hd, Hv, Hc, Hz, Hq, Hahead.
  assert (pred (length (jobs s1)) = length q) as Hn.
  { rewrite Hq, length_app. cbn. lia. }
  subst s2. rewrite Hn.
  destruct (run_jobs_frame (length q) s1) as (Hj & _ & Hc2 & Hz2).
  split; [done|]. split.
  { by rewrite Hj, Hq, drop_app_length. }
  split; [congruence|]. split; [congruence|].
  intros Hwf. rewrite run_jobs_other.
  - rewrite Hv. apply lookup_insert_eq.
  - rewrite Hq, take_app_length. by apply Hahead.
Qed.

(** ** Every reachable state is well formed *)

Lemma wf_frame (s s' : state) :
  jobs s' = jobs s -> voids s' = voids s -> handles s' = handles s ->
  _polylines s' = _polylines s -> wf s -> wf s'.
Proof.
  intros Hj Hv Hh Hm [W1 W2 W3].
  split; rewrite ?Hj, ?Hv, ?Hh, ?Hm; assumption.
Qed.

Lemma wf_initial (cs : component -> MapPolylineComponent) : wf (initial cs).
Proof.
  split; cbn.
  - intros j Hin. by apply elem_of_nil in Hin.
  - intros p ws w Hp. by rewrite lookup_empty in Hp.
  - intros c p Hc. by rewrite lookup_empty in Hc.
Qed.

Lemma wf_then (p : promise) (r : reaction) (s : state) :
  wf s -> wf (then_ p r s).2.
Proof.
  intros [W1 W2 W3].
  destruct (then_spec p r s) as (s' & -> & Hv & Hm & _ & _ & _ & _ & Hh).
  cbn [snd]. set (d := fresh (dom (voids s))) in *.
  assert (forall x, x ∈ dom (voids s) -> x ∈ dom (voids s')) as Hmono.
  { intros x Hx. rewrite Hv, dom_insert_L. set_solver. }
  assert (d ∈ dom (voids s')) as Hd.
  { rewrite Hv, dom_insert_L. set_solver. }
  destruct (handles s !! p) as [h|] eqn:Hp; cbn [default] in Hh;
    [destruct h as [ws|l|reason]|]; destruct Hh as [Hh Hq]; split;
    rewrite ?Hq, ?Hh, ?Hm.
  - eauto.
  - intros p' ws' w. destruct (decide (p = p')) as [<-|Hne].
    + rewrite lookup_insert_eq. intros [= <-] [Hw|Hw]%elem_of_app.
      * eauto.
      * apply list_elem_of_singleton in Hw. by subst w.
    + rewrite lookup_insert_ne by done. eauto.
  - intros c p' Hc. rewrite dom_insert_L. apply W3 in Hc. set_solver.
  - intros j [Hj|Hj]%elem_of_app; [eauto|].
    apply list_elem_of_singleton in Hj. by subst j.
  - eauto.
  - done.
  - intros j [Hj|Hj]%elem_of_app; [eauto|].
    apply list_elem_of_singleton in Hj. by subst j.
  - eauto.
  - done.
  - eauto.
  - intros p' ws' w. destruct (decide (p = p')) as [<-|Hne].
    + rewrite lookup_insert_eq. intros [= <-] Hw.
      apply list_elem_of_singleton in Hw. by subst w.
    + rewrite lookup_insert_ne by done. eauto.
  - intros c p' Hc. rewrite dom_insert_L. apply W3 in Hc. set_solver.
Qed.

Lemma wf_settle (d : vpromise) (v : vstate) (s : state) :
  wf s -> wf (settle d v s).
Proof.
  intros [W1 W2 W3].
  assert (forall x, x ∈ dom (voids s) -> x ∈ dom (<[d := v]> (voids s))) as Hmono.
  { intros x Hx. rewrite dom_insert_L. set_solver. }
  split; cbn; eauto.
Qed.

Lemma wf_Promise_resolve (s : state) : wf s -> wf (Promise_resolve s).2.
Proof. apply wf_settle. Qed.

Lemma wf_AddPolyline (polyline : component) (s : state) :
  wf s -> wf (AddPolyline polyline s).2.
Proof.
  intros [W1 W2 W3]. rewrite AddPolyline_unfold. split; cbn.
  - done.
  - intros p ws w. destruct (decide (fresh (dom (handles s)) = p)) as [<-|Hne].
    + rewrite lookup_insert_eq. intros [= <-] Hw. by apply elem_of_nil in Hw.
    + rewrite lookup_insert_ne by done. eauto.
  - intros c p. rewrite dom_insert_L.
    destruct (decide (polyline = c)) as [<-|Hne].
    + rewrite lookup_insert_eq. intros [= <-]. set_solver.
    + rewrite lookup_insert_ne by done. intros Hc%W3. set_solver.
Qed.

Lemma wf_fulfil (p : promise) (l : Polyline) (s : state) :
  wf s -> wf (fulfil p l s).
Proof.
  intros Hwf. destruct (fulfil_spec p l s) as (Hv & Hm & _ & _ & _ & _ & Hh).
  destruct (handles s !! p) as [[ws|l'|reason]|] eqn:Hp;
    try (destruct Hh as [Hh Hq]; by apply (wf_frame s)).
  destruct Hh as [Hh Hq]. destruct Hwf as [W1 W2 W3].
  split; rewrite ?Hv, ?Hm, ?Hh, ?Hq.
  - intros j [Hj|Hj]%elem_of_app; [eauto|].
    apply list_elem_of_fmap in Hj as [w [-> Hw]]. cbn. eauto.
  - intros p' ws' w. destruct (decide (p = p')) as [<-|Hne].
    + by rewrite lookup_insert_eq.
    + rewrite lookup_insert_ne by done. eauto.
  - intros c p' Hc%W3. rewrite dom_insert_L. set_solver.
Qed.

Lemma wf_reject (p : promise) (reason : exn) (s : state) :
  wf s -> wf (reject p reason s).
Proof.
  intros Hwf.
  destruct (reject_spec p reason s) as (Hv & Hm & _ & _ & _ & _ & Hh).
  destruct (handles s !! p) as [[ws|l'|reason']|] eqn:Hp;
    try (destruct Hh as [Hh Hq]; by apply (wf_frame s)).
  destruct Hh as [Hh Hq]. destruct Hwf as [W1 W2 W3].
  split; rewrite ?Hv, ?Hm, ?Hh, ?Hq.
  - intros j [Hj|Hj]%elem_of_app; [eauto|].
    apply list_elem_of_fmap in Hj as [w [-> Hw]]. cbn. eauto.
  - intros p' ws' w. destruct (decide (p = p')) as [<-|Hne].
    + by rewrite lookup_insert_eq.
    + rewrite lookup_insert_ne by done. eauto.
  - intros c p' Hc%W3. rewrite dom_insert_L. set_solver.
Qed.

Lemma wf_run_job (s : state) : wf s -> wf (run_job s).
Proof.
  intros Hwf. destruct (jobs s) as [|j q] eqn:Hj.
  { by rewrite run_job_idle. }
  destruct (run_job_head j q s Hj) as (s' & -> & Hq & Hh & _ & _ & Hrest).
  destruct Hwf as [W1 W2 W3].
  assert (forall d v x, x ∈ dom (voids s) -> x ∈ dom (<[d := v]> (voids s)))
    as Hmono.
  { intros d v x Hx. rewrite dom_insert_L. set_solver. }
  assert (forall j', j' ∈ q -> derived_of j' ∈ dom (voids s)) as W1'.
  { intros j' Hin. apply W1. rewrite Hj. by apply list_elem_of_further. }
  destruct j as [r l d|reason d].
  - destruct Hrest as (Hv & _ & Hm & _).
    split; rewrite ?Hq, ?Hv, ?Hh, ?Hm; eauto.
    intros c p. destruct (react_spec r l s) as (s2 & -> & _ & _ & _ & _ & _ & Hr).
    cbn [snd]. destruct r; destruct Hr as (_ & _ & ->); eauto.
    intros [_ Hc]%lookup_delete_Some. eauto.
  - destruct Hrest as (Hv & _ & Hm & _).
    split; rewrite ?Hq, ?Hv, ?Hh, ?Hm; eauto.
Qed.

Lemma fire_spec (l : Polyline) (eventName : string) (e : value) (s : state) :
  fire l eventName e s
  = set_trace
      (fun t => t ++ map (fun fn => (S (zone s),
                                     NextCall (match fn with Emit o => o end) e))
                         (registered l eventName (listeners s))) s.
Proof.
  unfold fire. generalize (registered l eventName (listeners s)) as fns.
  intros fns. revert s. induction fns as [|fn fns IH]; intros s; cbn.
  - destruct s; unfold set_trace; cbn. by rewrite app_nil_r.
  - destruct (listener_apply_spec fn e s) as (o & -> & ->). cbn [snd].
    rewrite IH. destruct s; unfold set_trace; cbn. by rewrite <- app_assoc.
Qed.

Lemma step_wf (a : action) (s : state) : wf s -> wf (step a s).
Proof.
  intros Hwf. destruct a; cbn [step].
  - by apply wf_AddPolyline.
  - unfold CreateEventObservable, polylines_get, bind.
    destruct (_polylines s !! polyline) as [p|]; cbn [then_of]; [|done].
    pose proof (wf_then p (OnAddListener eventName observer_) s Hwf) as H.
    by destruct (then_ p (OnAddListener eventName observer_) s) as [[d|err] s'].
  - unfold DeletePolyline, polylines_get, bind.
    destruct (_polylines s !! polyline) as [p|];
      [by apply wf_then|by apply wf_Promise_resolve].
  - by rewrite GetCoordinatesFromClick_frame.
  - done.
  - unfold SetOptions, polylines_get, bind.
    destruct (_polylines s !! polyline) as [p|]; cbn [then_of]; [|done].
    by apply wf_then.
  - unfold UpdatePolyline, polylines_get, bind.
    destruct (_polylines s !! polyline) as [p|];
      [by apply wf_then|by apply wf_Promise_resolve].
  - by apply wf_fulfil.
  - by apply wf_reject.
  - by apply wf_run_job.
  - rewrite fire_spec. by apply (wf_frame s).
  - by apply (wf_frame s).
Qed.

Lemma run_wf (acts : list action) (s : state) : wf s -> wf (run acts s).
Proof.
  revert s. induction acts as [|a acts IH]; intros s Hwf; [done|].
  cbn. apply IH. by apply step_wf.
Qed.

Lemma reachable_wf (s : state) : reachable s -> wf s.
Proof. intros (cs & acts & ->). apply run_wf, wf_initial. Qed.

(** ** Calls on a component that is in the map *)

Lemma SetOptions_tracked (polyline : component) (options : IPolylineOptions)
    (p : promise) (s : state) :
  _polylines s !! polyline = Some p ->
  SetOptions polyline options s = then_ p (OnSetOptions options) s.
Proof.
  intros Hp. unfold SetOptions, polylines_get, bind. by rewrite Hp.
Qed.

Lemma UpdatePolyline_tracked (polyline : component) (p : promise) (s : state) :
  _polylines s !! polyline = Some p ->
  UpdatePolyline polyline s = then_ p (OnSetPath polyline) s.
Proof.
  intros Hp. unfold UpdatePolyline, polylines_get, bind. by rewrite Hp.
Qed.

Lemma DeletePolyline_tracked (polyline : component) (p : promise) (s : state) :
  _polylines s !! polyline = Some p ->
  DeletePolyline polyline s = then_ p (OnDelete polyline) s.
Proof.
  intros Hp. unfold DeletePolyline, polylines_get, bind. by rewrite Hp.
Qed.

Lemma then_registers (p : promise) (r : reaction) (s : state) :
  exists s',
    then_ p r s = (Ok (fresh (dom (voids s))), s') /\
    only_registers p r (fresh (dom (voids s))) s s'.
Proof.
  destruct (then_spec p r s) as (s' & Hthen & Hv & Hm & Hc & Hl & Hz & Ht & Hh).
  exists s'. split; [exact Hthen|].
  split; [apply fresh_void_unused|]. by repeat split.
Qed.

(** The queue after the call and the fulfilment is the queue the
    fulfilment alone gives, followed by the one job of the call. *)
Lemma then_fulfil_jobs (p : promise) (r : reaction) (l : Polyline)
    (h : hstate) (s : state) :
  handles s !! p = Some h -> may_give h l ->
  jobs (fulfil p l (then_ p r s).2)
  = jobs (fulfil p l s) ++ [Reaction r l (fresh (dom (voids s)))].
Proof.
  intros Hp Hgive.
  destruct (then_spec p r s) as (s' & -> & _ & _ & _ & _ & _ & _ & Hh).
  cbn [snd]. rewrite Hp in Hh. cbn [default] in Hh.
  destruct (fulfil_spec p l s) as (_ & _ & _ & _ & _ & _ & Hf).
  destruct (fulfil_spec p l s') as (_ & _ & _ & _ & _ & _ & Hf').
  rewrite Hp in Hf. destruct h as [ws|l'|reason]; [| |done].
  - destruct Hh as [Hh Hj]. rewrite Hh, lookup_insert_eq in Hf'.
    destruct Hf as [_ ->]. destruct Hf' as [_ ->].
    by rewrite Hj, map_app, app_assoc.
  - cbn in Hgive. subst l'. destruct Hh as [Hh Hj]. rewrite Hh, Hp in Hf'.
    destruct Hf as [_ ->]. destruct Hf' as [_ ->]. by rewrite Hj.
Qed.

(** C6. For a component in the map whose promise gives the handle [l]:
    once the promise is fulfilled and the jobs queued before have run,
    the job of [SetOptions(polyline, options)] is the one to run, and
    running it makes the single call [l.SetOptions(options)], with the
    options object the caller gave; likewise the job of
    [UpdatePolyline(polyline)] makes the single call
    [l.SetPath(polyline.Path)], inside the zone, with the component's path
    as it is.  Whenever the runtime runs one of the two registered
    functions, in any state, that one call is all it makes: the options
    are those given to [SetOptions], the path is the component's path at
    that moment.  The call of [SetOptions] or [UpdatePolyline] itself
    does nothing but register that one function on the component's
    promise: it makes no external call, leaves the map, the components,
    the listeners and the zone as they were, and adds to the waiting
    reactions, or to the queue, the one entry that carries the caller's
    options (or the component) as given; once the promise gives [l] the
    queue is the one there would have been without the call, followed by
    that one job. *)
Theorem options_and_path_pass_through (polyline : component) (p : promise)
    (h : hstate) (l : Polyline) (s : state) :
  _polylines s !! polyline = Some p ->
  handles s !! p = Some h ->
  may_give h l ->
  (forall options : IPolylineOptions,
      let s1 := fulfil p l (SetOptions polyline options s).2 in
      let s2 := run_jobs (pred (length (jobs s1))) s1 in
      exists d : vpromise,
        (SetOptions polyline options s).1 = Ok d /\
        jobs s2 = [Reaction (OnSetOptions options) l d] /\
        trace (run_job s2) = trace s2 ++ [(zone s, SetOptionsCall l options)] /\
        voids (run_job s2) !! d = Some VoidFulfilled) /\
  (let s1 := fulfil p l (UpdatePolyline polyline s).2 in
   let s2 := run_jobs (pred (length (jobs s1))) s1 in
   exists d : vpromise,
     (UpdatePolyline polyline s).1 = Ok d /\
     jobs s2 = [Reaction (OnSetPath polyline) l d] /\
     components s2 = components s /\
     trace (run_job s2)
     = trace s2 ++ [(S (zone s), SetPathCall l (Path (components s polyline)))] /\
     voids (run_job s2) !! d = Some VoidFulfilled) /\
  (forall (s' : state) (options : IPolylineOptions) (l' : Polyline)
          (d : vpromise) (q : list job),
      jobs s' = Reaction (OnSetOptions options) l' d :: q ->
      trace (run_job s') = trace s' ++ [(zone s', SetOptionsCall l' options)]) /\
  (forall (s' : state) (l' : Polyline) (d : vpromise) (q : list job),
      jobs s' = Reaction (OnSetPath polyline) l' d :: q ->
      trace (run_job s')
      = trace s' ++ [(S (zone s'), SetPathCall l' (Path (components s' polyline)))]) /\
  (forall options : IPolylineOptions,
      exists (d : vpromise) (s' : state),
        SetOptions polyline options s = (Ok d, s') /\
        only_registers p (OnSetOptions options) d s s' /\
        jobs (fulfil p l s')
        = jobs (fulfil p l s) ++ [Reaction (OnSetOptions options) l d]) /\
  (exists (d : vpromise) (s' : state),
      UpdatePolyline polyline s = (Ok d, s') /\
      only_registers p (OnSetPath polyline) d s s' /\
      jobs (fulfil p l s')
      = jobs (fulfil p l s) ++ [Reaction (OnSetPath polyline) l d]).
Proof.
  intros Hm Hp Hgive.
  assert (forall s' r l' d q,
             jobs s' = Reaction r l' d :: q ->
             trace (run_job s') = trace (react r l' s').2) as Hrun.
  { intros s' r l' d q Hj.
    by destruct (run_job_head _ _ s' Hj) as (s3 & -> & _ & _ & _ & _ & _ & Ht & _). }
  assert (forall r, exists (d : vpromise) (s' : state),
             then_ p r s = (Ok d, s') /\ only_registers p r d s s' /\
             jobs (fulfil p l s') = jobs (fulfil p l s) ++ [Reaction r l d])
    as Hcall.
  { intros r. destruct (then_registers p r s) as (s' & Hthen & Hreg).
    exists (fresh (dom (voids s))), s'. split; [exact Hthen|].
    split; [exact Hreg|].
    pose proof (then_fulfil_jobs p r l h s Hp Hgive) as Hjobs.
    by rewrite Hthen in Hjobs. }
  split; [|split; [|split; [|split; [|split]]]]; cycle 2.
  { intros s' options l' d q Hj. rewrite (Hrun _ _ _ _ _ Hj).
    destruct (react_spec (OnSetOptions options) l' s')
      as (s4 & Hreact & _ & _ & _ & _ & _ & Ht4 & _).
    by rewrite Hreact. }
  { intros s' l' d q Hj. rewrite (Hrun _ _ _ _ _ Hj).
    destruct (react_spec (OnSetPath polyline) l' s')
      as (s4 & Hreact & _ & _ & _ & _ & _ & Ht4 & _).
    by rewrite Hreact. }
  { intros options. rewrite (SetOptions_tracked _ _ p) by done. apply Hcall. }
  { rewrite (UpdatePolyline_tracked _ p) by done. apply Hcall. }
  - intros options. rewrite (SetOptions_tracked _ _ p) by done. intros s1 s2.
    destruct (then_fulfil_head p (OnSetOptions options) l h s Hp Hgive)
      as (Hd & Hj & Hz & _ & _).
    fold s1 s2 in Hj, Hz. eexists. split; [exact Hd|]. split; [exact Hj|].
    destruct (run_job_head _ _ s2 Hj) as (s3 & -> & _ & _ & _ & _ & Hv & Ht & _).
    rewrite Ht, Hv, lookup_insert_eq. split; [|done].
    destruct (react_spec (OnSetOptions options) l s2)
      as (s4 & Hreact & _ & _ & _ & _ & _ & Ht4 & _).
    rewrite Hreact. cbn [snd]. by rewrite Ht4, Hz.
  - rewrite (UpdatePolyline_tracked _ p) by done. intros s1 s2.
    destruct (then_fulfil_head p (OnSetPath polyline) l h s Hp Hgive)
      as (Hd & Hj & Hz & Hc & _).
    fold s1 s2 in Hj, Hz, Hc. eexists. split; [exact Hd|]. split; [exact Hj|].
    split; [exact Hc|].
    destruct (run_job_head _ _ s2 Hj) as (s3 & -> & _ & _ & _ & _ & Hv & Ht & _).
    rewrite Ht, Hv, lookup_insert_eq. split; [|done].
    destruct (react_spec (OnSetPath polyline) l s2)
      as (s4 & Hreact & _ & _ & _ & _ & _ & Ht4 & _).
    rewrite Hreact. cbn [snd]. by rewrite Ht4, Hz, Hc.
Qed.

(** ** The promise returned by DeletePolyline, under any interleaving *)

(** What a step does to promises and the map: nothing, or what one of
    the runtime's operations does. *)
Lemma step_cases (a : action) (s : state) :
  same_core s (step a s) \/
  (exists p r, step a s = (then_ p r s).2) \/
  step a s = (Promise_resolve s).2 \/
  (exists polyline, step a s = (AddPolyline polyline s).2) \/
  (exists p l, step a s = fulfil p l s) \/
  (exists p reason, step a s = reject p reason s) \/
  (a = RuntimeRunsJob /\ step a s = run_job s).
Proof.
  destruct a; cbn [step].
  - right. right. right. left. by eexists.
  - unfold CreateEventObservable, polylines_get, bind.
    destruct (_polylines s !! polyline) as [p|]; cbn [then_of]; [|by left].
    right. left. exists p, (OnAddListener eventName observer_).
    by destruct (then_ p (OnAddListener eventName observer_) s) as [[d|err] s'].
  - unfold DeletePolyline, polylines_get, bind.
    destruct (_polylines s !! polyline) as [p|];
      [right; left; by eexists _, _|right; right; by left].
  - left. by rewrite GetCoordinatesFromClick_frame.
  - by left.
  - unfold SetOptions, polylines_get, bind.
    destruct (_polylines s !! polyline) as [p|]; cbn [then_of]; [|by left].
    right. left. by eexists _, _.
  - unfold UpdatePolyline, polylines_get, bind.
    destruct (_polylines s !! polyline) as [p|];
      [right; left; by eexists _, _|right; right; by left].
  - do 4 right. left. by eexists _, _.
  - do 5 right. left. by eexists _, _.
  - do 6 right. done.
  - left. by rewrite fire_spec.
  - by left.
Qed.

Lemma dom_insert_mono {V} (m : gmap positive V) (k x : positive) (v : V) :
  x ∈ dom m -> x ∈ dom (<[k := v]> m).
Proof. intros Hx. rewrite dom_insert_L. by apply elem_of_union_r. Qed.

Lemma awaits_delete_frame (polyline : component) (p : promise)
    (d : vpromise) (s s' : state) :
  same_core s s' -> awaits_delete polyline p d s -> awaits_delete polyline p d s'.
Proof.
  intros (Hj & Hv & Hh & _) [A1 A2 A3 A4].
  split; rewrite ?Hj, ?Hv, ?Hh; assumption.
Qed.

Lemma awaits_delete_start (polyline : component) (p : promise) (s : state) :
  wf s -> _polylines s !! polyline = Some p ->
  awaits_delete polyline p (fresh (dom (voids s)))
    (then_ p (OnDelete polyline) s).2.
Proof.
  intros [W1 W2 W3] Hm.
  destruct (then_spec p (OnDelete polyline) s)
    as (s' & -> & Hv & _ & _ & _ & _ & _ & Hh).
  cbn [snd]. set (d := fresh (dom (voids s))) in *.
  assert (d ∉ dom (voids s)) as Hfresh by apply is_fresh.
  assert (forall j, j ∈ jobs s -> derived_of j <> d) as Hjobs.
  { intros j Hin Heq. apply Hfresh. rewrite <- Heq. by apply W1. }
  pose proof (W3 _ _ Hm) as Hdom. apply elem_of_dom in Hdom as [h Hp].
  rewrite Hp in Hh. cbn [default] in Hh.
  destruct h as [ws|l|reason]; destruct Hh as [Hh Hq]; split;
    rewrite ?Hv, ?Hh, ?Hq.
  - rewrite dom_insert_L. set_solver.
  - rewrite dom_insert_L. set_solver.
  - intros j Hin Heq. by destruct (Hjobs j Hin).
  - intros p' ws' w. destruct (decide (p = p')) as [<-|Hne].
    + rewrite lookup_insert_eq. intros [= <-] [Hw|Hw]%elem_of_app Heq.
      * exfalso. apply Hfresh. rewrite <- Heq. by apply (W2 p ws w).
      * apply list_elem_of_singleton in Hw. by subst w.
    + rewrite lookup_insert_ne by done. intros Hp' Hw Heq.
      exfalso. apply Hfresh. rewrite <- Heq. by apply (W2 p' ws' w).
  - rewrite dom_insert_L. set_solver.
  - apply elem_of_dom. by eexists.
  - intros j [Hin|Hin]%elem_of_app Heq; [by destruct (Hjobs j Hin)|].
    apply list_elem_of_singleton in Hin. subst j. left. by exists l.
  - intros p' ws' w Hp' Hw Heq.
    exfalso. apply Hfresh. rewrite <- Heq. by apply (W2 p' ws' w).
  - rewrite dom_insert_L. set_solver.
  - apply elem_of_dom. by eexists.
  - intros j [Hin|Hin]%elem_of_app Heq; [by destruct (Hjobs j Hin)|].
    apply list_elem_of_singleton in Hin. subst j. right. by exists reason.
  - intros p' ws' w Hp' Hw Heq.
    exfalso. apply Hfresh. rewrite <- Heq. by apply (W2 p' ws' w).
Qed.

Lemma awaits_delete_then (polyline : component) (p : promise) (d : vpromise)
    (p' : promise) (r : reaction) (s : state) :
  awaits_delete polyline p d s -> awaits_delete polyline p d (then_ p' r s).2.
Proof.
  intros [A1 A2 A3 A4].
  destruct (then_spec p' r s) as (s' & -> & Hv & _ & _ & _ & _ & _ & Hh).
  cbn [snd]. set (d' := fresh (dom (voids s))) in *.
  assert (d' <> d) as Hne.
  { intros Heq. apply (is_fresh (dom (voids s))). fold d'. by rewrite Heq. }
  destruct (handles s !! p') as [h|] eqn:Hp'; cbn [default] in Hh;
    [destruct h as [ws|l|reason]|]; destruct Hh as [Hh Hq]; split;
    rewrite ?Hv, ?Hh, ?Hq;
    try (by apply dom_insert_mono); try assumption.
  - intros j Hin Heq. destruct (A3 j Hin Heq) as [(l & -> & Hl)|]; [|by right].
    left. exists l. split; [done|].
    destruct (decide (p' = p)) as [->|Hpp]; [congruence|].
    by rewrite lookup_insert_ne.
  - intros p'' ws' w. destruct (decide (p' = p'')) as [<-|Hpp].
    + rewrite lookup_insert_eq. intros [= <-] [Hw|Hw]%elem_of_app Heq.
      * by apply (A4 p' ws w).
      * apply list_elem_of_singleton in Hw. by subst w.
    + rewrite lookup_insert_ne by done. apply A4.
  - intros j [Hin|Hin]%elem_of_app Heq; [by apply A3|].
    apply list_elem_of_singleton in Hin. by subst j.
  - intros j [Hin|Hin]%elem_of_app Heq; [by apply A3|].
    apply list_elem_of_singleton in Hin. by subst j.
  - intros j Hin Heq. destruct (A3 j Hin Heq) as [(l & -> & Hl)|]; [|by right].
    left. exists l. split; [done|].
    destruct (decide (p' = p)) as [->|Hpp]; [congruence|].
    by rewrite lookup_insert_ne.
  - intros p'' ws' w. destruct (decide (p' = p'')) as [<-|Hpp].
    + rewrite lookup_insert_eq. intros [= <-] Hw Heq.
      apply list_elem_of_singleton in Hw. by subst w.
    + rewrite lookup_insert_ne by done. apply A4.
Qed.

Lemma awaits_delete_settle (polyline : component) (p : promise)
    (d d' : vpromise) (v : vstate) (s : state) :
  awaits_delete polyline p d s -> awaits_delete polyline p d (settle d' v s).
Proof.
  intros [A1 A2 A3 A4]. split; cbn; try assumption.
  by apply dom_insert_mono.
Qed.

Lemma awaits_delete_AddPolyline (polyline : component) (p : promise)
    (d : vpromise) (c : component) (s : state) :
  awaits_delete polyline p d s ->
  awaits_delete polyline p d (AddPolyline c s).2.
Proof.
  intros [A1 A2 A3 A4]. rewrite AddPolyline_unfold.
  assert (fresh (dom (handles s)) <> p) as Hne.
  { intros Heq. apply (is_fresh (dom (handles s))). by rewrite Heq. }
  split; cbn.
  - done.
  - by apply dom_insert_mono.
  - intros j Hin Heq. rewrite lookup_insert_ne by done. by apply A3.
  - intros p' ws w.
    destruct (decide (fresh (dom (handles s)) = p')) as [<-|Hpp].
    + rewrite lookup_insert_eq. intros [= <-] Hw. by apply elem_of_nil in Hw.
    + rewrite lookup_insert_ne by done. apply A4.
Qed.

Lemma awaits_delete_fulfil (polyline : component) (p : promise)
    (d : vpromise) (p' : promise) (l : Polyline) (s : state) :
  awaits_delete polyline p d s -> awaits_delete polyline p d (fulfil p' l s).
Proof.
  intros Ha. destruct (fulfil_spec p' l s) as (Hv & Hm & _ & _ & _ & _ & Hh).
  destruct (handles s !! p') as [[ws|l'|reason]|] eqn:Hp';
    try (destruct Hh as [Hh Hq]; by apply (awaits_delete_frame _ _ _ s)).
  destruct Hh as [Hh Hq]. destruct Ha as [A1 A2 A3 A4].
  split; rewrite ?Hv, ?Hh, ?Hq.
  - done.
  - by apply dom_insert_mono.
  - intros j [Hin|Hin]%elem_of_app Heq.
    + destruct (A3 j Hin Heq) as [(l0 & -> & Hl)|]; [|by right].
      left. exists l0. split; [done|].
      destruct (decide (p' = p)) as [->|Hpp]; [congruence|].
      by rewrite lookup_insert_ne.
    + apply list_elem_of_fmap in Hin as [w [-> Hw]]. cbn in Heq.
      destruct (A4 p' ws w Hp' Hw Heq) as [-> Hr]. left. exists l.
      split; [|apply lookup_insert_eq].
      unfold queue_reaction. by rewrite Hr, Heq.
  - intros p'' ws' w. destruct (decide (p' = p'')) as [<-|Hpp].
    + by rewrite lookup_insert_eq.
    + rewrite lookup_insert_ne by done. apply A4.
Qed.

Lemma awaits_delete_reject (polyline : component) (p : promise)
    (d : vpromise) (p' : promise) (reason : exn) (s : state) :
  awaits_delete polyline p d s ->
  awaits_delete polyline p d (reject p' reason s).
Proof.
  intros Ha.
  destruct (reject_spec p' reason s) as (Hv & Hm & _ & _ & _ & _ & Hh).
  destruct (handles s !! p') as [[ws|l'|reason']|] eqn:Hp';
    try (destruct Hh as [Hh Hq]; by apply (awaits_delete_frame _ _ _ s)).
  destruct Hh as [Hh Hq]. destruct Ha as [A1 A2 A3 A4].
  split; rewrite ?Hv, ?Hh, ?Hq.
  - done.
  - by apply dom_insert_mono.
  - intros j [Hin|Hin]%elem_of_app Heq.
    + destruct (A3 j Hin Heq) as [(l0 & -> & Hl)|]; [|by right].
      left. exists l0. split; [done|].
      destruct (decide (p' = p)) as [->|Hpp]; [congruence|].
      by rewrite lookup_insert_ne.
    + apply list_elem_of_fmap in Hin as [w [-> Hw]]. cbn in Heq.
      right. exists reason. unfold queue_rejection. by rewrite Heq.
  - intros p'' ws' w. destruct (decide (p' = p'')) as [<-|Hpp].
    + by rewrite lookup_insert_eq.
    + rewrite lookup_insert_ne by done. apply A4.
Qed.

Lemma awaits_delete_run_job (polyline : component) (p : promise)
    (d : vpromise) (s : state) :
  awaits_delete polyline p d s -> awaits_delete polyline p d (run_job s).
Proof.
  intros Ha. destruct (jobs s) as [|j q] eqn:Hj.
  { by rewrite run_job_idle. }
  destruct (run_job_head j q s Hj) as (s' & -> & Hq & Hh & _ & _ & Hrest).
  destruct Ha as [A1 A2 A3 A4].
  assert (exists d' v, voids s' = <[d' := v]> (voids s)) as (d' & v & Hv).
  { destruct j; destruct Hrest as (-> & _); by eexists _, _. }
  split; rewrite ?Hq, ?Hh, ?Hv; try assumption.
  - by apply dom_insert_mono.
  - intros j' Hin. apply A3. rewrite Hj. by apply list_elem_of_further.
Qed.

Lemma awaits_delete_step (polyline : component) (p : promise) (d : vpromise)
    (a : action) (s : state) :
  awaits_delete polyline p d s -> awaits_delete polyline p d (step a s).
Proof.
  intros Ha.
  destruct (step_cases a s)
    as [H|[(p' & r & ->)|[->|[(c & ->)|[(p' & l & ->)|[(p' & e & ->)|[_ ->]]]]]]].
  - by apply (awaits_delete_frame _ _ _ s).
  - by apply awaits_delete_then.
  - by apply awaits_delete_settle.
  - by apply awaits_delete_AddPolyline.
  - by apply awaits_delete_fulfil.
  - by apply awaits_delete_reject.
  - by apply awaits_delete_run_job.
Qed.

Lemma awaits_delete_run (polyline : component) (p : promise) (d : vpromise)
    (acts : list action) (s : state) :
  awaits_delete polyline p d s -> awaits_delete polyline p d (run acts s).
Proof.
  revert s. induction acts as [|a acts IH]; intros s Ha; [done|].
  cbn. by apply IH, awaits_delete_step.
Qed.

(** The one step that can fulfil the promise: the runtime running the
    reaction of [DeletePolyline] on the handle its promise gave. *)
Lemma awaits_delete_fulfilled (polyline : component) (p : promise)
    (d : vpromise) (a : action) (s : state) :
  awaits_delete polyline p d s ->
  voids s !! d <> Some VoidFulfilled ->
  voids (step a s) !! d = Some VoidFulfilled ->
  a = RuntimeRunsJob /\
  exists l q,
    jobs s = Reaction (OnDelete polyline) l d :: q /\
    handles s !! p = Some (Fulfilled l).
Proof.
  intros [A1 A2 A3 A4] Hnot Hnow.
  assert (forall d' v, d' ∉ dom (voids s) ->
            <[d' := v]> (voids s) !! d = Some VoidFulfilled -> False) as Hnew.
  { intros d' v Hd'. rewrite lookup_insert_ne; [done|]. by intros ->. }
  destruct (step_cases a s)
    as [H|[(p' & r & Hs)|[Hs|[(c & Hs)|[(p' & l & Hs)|[(p' & e & Hs)|[-> Hs]]]]]]];
    rewrite ?Hs in Hnow.
  - exfalso. destruct H as (_ & Hv & _). by rewrite Hv in Hnow.
  - exfalso. destruct (then_spec p' r s) as (s' & Hs' & Hv & _).
    rewrite Hs' in Hnow. cbn [snd] in Hnow. rewrite Hv in Hnow.
    by apply Hnew in Hnow; [|apply is_fresh].
  - exfalso. by apply Hnew in Hnow; [|apply is_fresh].
  - exfalso. by rewrite AddPolyline_unfold in Hnow.
  - exfalso. destruct (fulfil_spec p' l s) as (Hv & _). by rewrite Hv in Hnow.
  - exfalso. destruct (reject_spec p' e s) as (Hv & _). by rewrite Hv in Hnow.
  - split; [done|]. destruct (jobs s) as [|j q] eqn:Hj.
    { by rewrite run_job_idle in Hnow. }
    destruct (run_job_head j q s Hj) as (s' & Hs' & _ & _ & _ & _ & Hrest).
    rewrite Hs' in Hnow.
    assert (derived_of j = d) as Hd.
    { destruct j as [r l d'|reason d']; destruct Hrest as (Hv & _);
        rewrite Hv in Hnow; cbn;
        destruct (decide (d' = d)) as [|Hne]; try done;
        by rewrite lookup_insert_ne in Hnow. }
    destruct (A3 j (list_elem_of_here _ _) Hd)
      as [(l & -> & Hl)|(reason & ->)]; [by exists l, q|].
    destruct Hrest as (Hv & _). rewrite Hv in Hnow. cbn in Hd. subst.
    by rewrite lookup_insert_eq in Hnow.
Qed.

(** ** DeletePolyline on a component that is in the map *)

(** When the platform gives the handle and the jobs run in turn, the
    promise of [DeletePolyline] is pending until its own job runs and
    fulfilled right after it. *)
Lemma delete_in_turn (polyline : component) (p : promise)
    (h : hstate) (l : Polyline) (s : state) :
  reachable s ->
  _polylines s !! polyline = Some p ->
  handles s !! p = Some h ->
  may_give h l ->
  let s1 := fulfil p l (DeletePolyline polyline s).2 in
  let s2 := run_jobs (pred (length (jobs s1))) s1 in
  let s3 := run_job s2 in
  exists d : vpromise,
    (DeletePolyline polyline s).1 = Ok d /\
    voids s2 !! d = Some VoidPending /\
    voids s3 !! d = Some VoidFulfilled /\
    trace s3 = trace s2 ++ [(S (zone s), DeleteCall l)] /\
    _polylines s3 !! polyline = None /\
    GetNativeMarker polyline s3 = (Ok None, s3) /\
    exists (d' : vpromise) (s4 : state),
      DeletePolyline polyline s3 = (Ok d', s4) /\
      voids s4 !! d' = Some VoidFulfilled /\
      trace s4 = trace s3 /\ jobs s4 = jobs s3 /\
      handles s4 = handles s3 /\ _polylines s4 = _polylines s3.
Proof.
  intros Hreach Hm Hp Hgive.
  rewrite (DeletePolyline_tracked _ p) by done. intros s1 s2 s3.
  destruct (then_fulfil_head p (OnDelete polyline) l h s Hp Hgive)
    as (Hd & Hj & Hz & _ & Hpending).
  fold s1 s2 in Hj, Hz, Hpending.
  eexists. split; [exact Hd|].
  split; [by apply Hpending, reachable_wf|].
  destruct (run_job_head _ _ s2 Hj) as (s3' & Hs3 & _ & _ & _ & _ & Hv & Ht & Hpl & _).
  fold s3 in Hs3. subst s3'.
  destruct (react_spec (OnDelete polyline) l s2)
    as (s4 & Hreact & _ & _ & _ & _ & _ & Ht4 & _ & Hpl4).
  rewrite Hreact in Ht, Hpl. cbn [snd] in Ht, Hpl.
  assert (_polylines s3 !! polyline = None) as Hgone.
  { rewrite Hpl, Hpl4. apply lookup_delete_eq. }
  split; [rewrite Hv; apply lookup_insert_eq|].
  split; [by rewrite Ht, Ht4, Hz|].
  split; [exact Hgone|].
  split; [unfold GetNativeMarker, polylines_get; by rewrite Hgone|].
  rewrite DeletePolyline_absent by done.
  destruct (Promise_resolve_spec s3)
    as (s5 & -> & _ & _ & ? & ? & ? & ? & _ & ? & _).
  by eexists _, _.
Qed.

Lemma tracked_state_reachable : reachable tracked_state.
Proof. by exists (fun _ => sample_component), [CallAddPolyline 1%positive]. Qed.

Lemma options_and_path_pass_through_witness :
  _polylines tracked_state !! 1%positive = Some 1%positive /\
  handles tracked_state !! 1%positive = Some (Pending []) /\
  may_give (Pending []) 4 /\
  exists d : vpromise,
    (UpdatePolyline 1 tracked_state).1 = Ok d /\
    trace (run_job (fulfil 1 4 (UpdatePolyline 1 tracked_state).2))
    = trace tracked_state ++ [(1, SetPathCall 4 (Path sample_component))].
Proof.
  assert (_polylines tracked_state !! 1%positive = Some 1%positive) as H1
    by reflexivity.
  assert (handles tracked_state !! 1%positive = Some (Pending [])) as H2
    by reflexivity.
  assert (may_give (Pending []) 4) as H3 by exact I.
  split; [exact H1|]. split; [exact H2|]. split; [exact H3|].
  destruct (options_and_path_pass_through 1 1 (Pending []) 4 tracked_state
              H1 H2 H3) as [_ [(d & Hd & _ & _ & Ht & _) _]].
  exists d. split; [exact Hd|exact Ht].
Defined.


(** After the job of [DeletePolyline]: no entry, and a second call that
    returns at once. *)
Lemma DeletePolyline_again (polyline : component) (s : state) :
  _polylines s !! polyline = None ->
  GetNativeMarker polyline s = (Ok None, s) /\
  exists (d' : vpromise) (s' : state),
    DeletePolyline polyline s = (Ok d', s') /\
    voids s' !! d' = Some VoidFulfilled /\
    trace s' = trace s /\ jobs s' = jobs s /\
    handles s' = handles s /\ _polylines s' = _polylines s.
Proof.
  intros Hgone.
  split; [unfold GetNativeMarker, polylines_get; by rewrite Hgone|].
  rewrite DeletePolyline_absent by done.
  destruct (Promise_resolve_spec s)
    as (s' & -> & _ & _ & ? & ? & ? & ? & _ & ? & _).
  by eexists _, _.
Qed.

(** C9. Let [polyline] have the entry [p] in the map of a reachable
    state, and let [d] be the promise [DeletePolyline(polyline)] returns;
    [d] is pending.  Whatever is called and whatever the runtime and the
    platform do afterwards, the step that fulfils [d] is the runtime
    running the function registered by [DeletePolyline] on the handle [l]
    that [p] gave: with that step [l.Delete()] is called, inside the zone,
    and the component's entry is removed, so that [GetNativeMarker] gives
    no promise and a second [DeletePolyline] returns an already fulfilled
    promise, with no external call, no job and no change to the handles'
    promises.  And [d] does get fulfilled: once the platform gives the
    handle and the jobs queued before have run, the next job fulfils it. *)
Theorem delete_removes_entry (polyline : component) (p : promise) (s : state) :
  reachable s ->
  _polylines s !! polyline = Some p ->
  let d := fresh (dom (voids s)) in
  let s0 := (DeletePolyline polyline s).2 in
  (DeletePolyline polyline s).1 = Ok d /\
  voids s0 !! d = Some VoidPending /\
  (forall (acts : list action) (a : action),
      let s1 := run acts s0 in
      let s2 := step a s1 in
      voids s1 !! d <> Some VoidFulfilled ->
      voids s2 !! d = Some VoidFulfilled ->
      exists l : Polyline,
        handles s1 !! p = Some (Fulfilled l) /\
        trace s2 = trace s1 ++ [(S (zone s1), DeleteCall l)] /\
        _polylines s2 !! polyline = None /\
        GetNativeMarker polyline s2 = (Ok None, s2) /\
        exists (d' : vpromise) (s3 : state),
          DeletePolyline polyline s2 = (Ok d', s3) /\
          voids s3 !! d' = Some VoidFulfilled /\
          trace s3 = trace s2 /\ jobs s3 = jobs s2 /\
          handles s3 = handles s2 /\ _polylines s3 = _polylines s2) /\
  (forall (h : hstate) (l : Polyline),
      handles s !! p = Some h ->
      may_give h l ->
      let s1 := fulfil p l s0 in
      let s2 := run_jobs (pred (length (jobs s1))) s1 in
      voids s2 !! d = Some VoidPending /\
      voids (run_job s2) !! d = Some VoidFulfilled).
Proof.
  intros Hreach Hm d s0. pose proof (reachable_wf s Hreach) as Hwf.
  pose proof (awaits_delete_start polyline p s Hwf Hm) as Hstart.
  subst s0. rewrite (DeletePolyline_tracked _ p) by done.
  destruct (then_spec p (OnDelete polyline) s) as (s0 & Hthen & Hv & _).
  fold d in Hthen, Hv, Hstart. rewrite Hthen in *. cbn [fst snd] in *.
  split; [done|]. split; [rewrite Hv; apply lookup_insert_eq|]. split.
  - intros acts a. set (s1 := run acts s0). set (s2 := step a s1).
    intros Hnot Hnow.
    pose proof (awaits_delete_run polyline p d acts s0 Hstart) as Ha.
    fold s1 in Ha.
    destruct (awaits_delete_fulfilled polyline p d a s1 Ha Hnot Hnow)
      as (-> & l & q & Hj & Hl).
    exists l. split; [exact Hl|]. subst s2. cbn [step].
    destruct (run_job_head _ _ s1 Hj) as (s2 & -> & _ & _ & _ & _ & _ & Ht & Hpl & _).
    destruct (react_spec (OnDelete polyline) l s1)
      as (s' & Hreact & _ & _ & _ & _ & _ & Ht' & _ & Hpl').
    rewrite Hreact in Ht, Hpl. cbn [snd] in Ht, Hpl.
    assert (_polylines s2 !! polyline = None) as Hgone.
    { rewrite Hpl, Hpl'. apply lookup_delete_eq. }
    split; [by rewrite Ht, Ht'|]. split; [exact Hgone|].
    by apply DeletePolyline_again.
  - intros h l Hp Hgive.
    destruct (delete_in_turn polyline p h l s Hreach Hm Hp Hgive)
      as (d0 & Hd0 & Hpend & Hful & _).
    rewrite (DeletePolyline_tracked _ p) in Hd0, Hpend, Hful by done.
    rewrite Hthen in Hd0, Hpend, Hful. cbn [fst snd] in Hd0, Hpend, Hful.
    injection Hd0 as <-. by split.
Qed.

Lemma delete_removes_entry_witness :
  reachable tracked_state /\
  _polylines tracked_state !! 1%positive = Some 1%positive /\
  voids (run [PlatformFulfils 1 4] (DeletePolyline 1 tracked_state).2)
    !! 1%positive <> Some VoidFulfilled /\
  voids (step RuntimeRunsJob
           (run [PlatformFulfils 1 4] (DeletePolyline 1 tracked_state).2))
    !! 1%positive = Some VoidFulfilled /\
  exists l : Polyline,
    trace (step RuntimeRunsJob
             (run [PlatformFulfils 1 4] (DeletePolyline 1 tracked_state).2))
    = trace tracked_state ++ [(1, DeleteCall l)] /\
    _polylines (step RuntimeRunsJob
                 (run [PlatformFulfils 1 4] (DeletePolyline 1 tracked_state).2))
      !! 1%positive = None.
Proof.
  assert (_polylines tracked_state !! 1%positive = Some 1%positive) as H1
    by reflexivity.
  assert (voids (run [PlatformFulfils 1 4] (DeletePolyline 1 tracked_state).2)
            !! 1%positive <> Some VoidFulfilled) as H2 by discriminate.
  assert (voids (step RuntimeRunsJob
                   (run [PlatformFulfils 1 4]
                      (DeletePolyline 1 tracked_state).2))
            !! 1%positive = Some VoidFulfilled) as H3 by reflexivity.
  split; [exact tracked_state_reachable|].
  split; [exact H1|]. split; [exact H2|]. split; [exact H3|].
  destruct (delete_removes_entry 1 1 tracked_state tracked_state_reachable H1)
    as (_ & _ & Hstep & _).
  destruct (Hstep [PlatformFulfils 1%positive 4%positive] RuntimeRunsJob H2 H3)
    as (l & _ & Ht & Hgone & _).
  exists l. split; [exact Ht|exact Hgone].
Defined.

(** ** Observers are notified inside the zone *)

Lemma then_of_trace (m : option promise) (r : reaction) (s : state) :
  trace (then_of m r s).2 = trace s /\
  _polylines (then_of m r s).2 = _polylines s.
Proof.
  destruct m as [p|]; [|done]. cbn [then_of].
  by destruct (then_spec p r s) as (s' & -> & _ & ? & _ & _ & _ & ? & _).
Qed.

Lemma step_trace (a : action) (s : state) :
  exists new, trace (step a s) = trace s ++ new /\ Forall in_zone new.
Proof.
  assert (forall s', trace s' = trace s ->
            exists new, trace s' = trace s ++ new /\ Forall in_zone new) as Hsame.
  { intros s' ->. exists []. by rewrite app_nil_r. }
  destruct a; cbn [step].
  - eexists. split; [reflexivity|]. by repeat constructor.
  - apply Hsame. unfold CreateEventObservable, polylines_get, bind.
    pose proof (then_of_trace (_polylines s !! polyline)
                  (OnAddListener eventName observer_) s) as [Ht _].
    by destruct (then_of (_polylines s !! polyline)
                   (OnAddListener eventName observer_) s) as [[d|err] s'].
  - apply Hsame. unfold DeletePolyline, polylines_get, bind.
    destruct (_polylines s !! polyline) as [p|]; [|done].
    by destruct (then_spec p (OnDelete polyline) s)
      as (s' & -> & _ & _ & _ & _ & _ & ? & _).
  - apply Hsame. by rewrite GetCoordinatesFromClick_frame.
  - by apply Hsame.
  - apply Hsame. unfold SetOptions, polylines_get, bind.
    apply then_of_trace.
  - apply Hsame. unfold UpdatePolyline, polylines_get, bind.
    destruct (_polylines s !! polyline) as [p|]; [|done].
    by destruct (then_spec p (OnSetPath polyline) s)
      as (s' & -> & _ & _ & _ & _ & _ & ? & _).
  - apply Hsame. apply fulfil_spec.
  - apply Hsame. apply reject_spec.
  - destruct (jobs s) as [|j q] eqn:Hj.
    { apply Hsame. by rewrite run_job_idle. }
    destruct (run_job_head j q s Hj) as (s' & -> & _ & _ & _ & _ & Hrest).
    destruct j as [r l d|reason d]; [|apply Hsame, Hrest].
    destruct Hrest as (_ & -> & _).
    destruct (react_spec r l s) as (s2 & -> & _ & _ & _ & _ & _ & Hr).
    cbn [snd].
    destruct r; destruct Hr as (-> & _); eexists; split; try reflexivity;
      by repeat constructor.
  - rewrite fire_spec. cbn. eexists. split; [reflexivity|].
    apply Forall_forall. intros x [fn [-> _]]%list_elem_of_fmap.
    unfold in_zone. cbn. lia.
  - by apply Hsame.
Qed.

Lemma run_trace (acts : list action) (s : state) :
  Forall in_zone (trace s) -> Forall in_zone (trace (run acts s)).
Proof.
  revert s. induction acts as [|a acts IH]; intros s Hs; [done|].
  cbn. apply IH. destruct (step_trace a s) as (new & -> & Hnew).
  by apply Forall_app.
Qed.

(** C3. The function registered by a subscription to the observable of
    [CreateEventObservable] is [(e) => _zone.run(() => observer.next(e))]:
    called with an event it makes the one call [observer.next(e)], one
    level inside the zone, and leaves the zone again.  Whatever the
    service is called with and whatever the runtime and the platform then
    do, every [observer.next] on record was made inside the zone. *)
Theorem observer_notified_in_zone :
  (forall eventName observer_ l s,
      listeners (react (OnAddListener eventName observer_) l s).2
      = listeners s ++ [(l, eventName, Emit observer_)]) /\
  (forall observer_ e s,
      listener_apply (Emit observer_) e s
      = (Ok tt, set_trace (fun t => t ++ [(S (zone s), NextCall observer_ e)]) s)) /\
  (forall cs acts depth observer_ e,
      (depth, NextCall observer_ e) ∈ trace (run acts (initial cs)) ->
      1 <= depth).
Proof.
  split; [done|]. split; [intros; apply zone_run_emit|].
  intros cs acts depth o e Hin.
  assert (Forall in_zone (trace (run acts (initial cs)))) as Hall.
  { apply run_trace. constructor. }
  rewrite Forall_forall in Hall. by apply Hall in Hin.
Qed.

Lemma observer_notified_in_zone_witness :
  (1, NextCall 9 sample_click) ∈ trace (run sample_scenario sample_state) /\
  1 <= 1.
Proof.
  assert ((1, NextCall 9 sample_click)
          ∈ trace (run sample_scenario sample_state)) as Hin.
  { apply list_elem_of_In. vm_compute. right. right. left. reflexivity. }
  split; [exact Hin|].
  exact (proj2 (proj2 observer_notified_in_zone)
           (fun _ => sample_component) sample_scenario 1 9%positive
           sample_click Hin).
Defined.

(** ** Which operations change the map *)

(** C7. [GetCoordinatesFromClick], [GetNativeMarker], [SetOptions],
    [UpdatePolyline] and a subscription to the observable of
    [CreateEventObservable] leave the map as it is, and so do the
    functions they register.  [AddPolyline] sets the component's entry,
    and the function registered by [DeletePolyline] removes it.  No other
    step of the service, the runtime or the platform changes the map. *)
Theorem queries_leave_map_unchanged (s : state) :
  (forall e, _polylines (GetCoordinatesFromClick e s).2 = _polylines s) /\
  (forall polyline, _polylines (GetNativeMarker polyline s).2 = _polylines s) /\
  (forall polyline options,
      _polylines (SetOptions polyline options s).2 = _polylines s) /\
  (forall polyline, _polylines (UpdatePolyline polyline s).2 = _polylines s) /\
  (forall eventName polyline observer_,
      _polylines (CreateEventObservable eventName polyline observer_ s).2
      = _polylines s) /\
  (forall polyline, _polylines (DeletePolyline polyline s).2 = _polylines s) /\
  (forall fn e, _polylines (listener_apply fn e s).2 = _polylines s) /\
  (forall r l,
      _polylines (react r l s).2
      = match r with
        | OnDelete polyline => delete polyline (_polylines s)
        | _ => _polylines s
        end) /\
  (forall polyline,
      _polylines (AddPolyline polyline s).2
      = <[polyline := fresh (dom (handles s))]> (_polylines s)) /\
  (forall a,
      _polylines (step a s) = _polylines s \/
      (exists polyline, a = CallAddPolyline polyline) \/
      (a = RuntimeRunsJob /\
       exists polyline l d q, jobs s = Reaction (OnDelete polyline) l d :: q)).
Proof.
  assert (forall polyline,
             _polylines (UpdatePolyline polyline s).2 = _polylines s) as Hupd.
  { intros polyline. unfold UpdatePolyline, polylines_get, bind.
    destruct (_polylines s !! polyline) as [p|]; [|done].
    by destruct (then_spec p (OnSetPath polyline) s) as (s' & -> & _ & ? & _). }
  assert (forall polyline,
             _polylines (DeletePolyline polyline s).2 = _polylines s) as Hdel.
  { intros polyline. unfold DeletePolyline, polylines_get, bind.
    destruct (_polylines s !! polyline) as [p|]; [|done].
    by destruct (then_spec p (OnDelete polyline) s) as (s' & -> & _ & ? & _). }
  assert (forall polyline options,
             _polylines (SetOptions polyline options s).2 = _polylines s) as Hset.
  { intros polyline options. unfold SetOptions, polylines_get, bind.
    apply then_of_trace. }
  assert (forall eventName polyline observer_,
      _polylines (CreateEventObservable eventName polyline observer_ s).2
      = _polylines s) as Hsub.
  { intros eventName polyline o.
    unfold CreateEventObservable, polylines_get, bind.
    pose proof (then_of_trace (_polylines s !! polyline)
                  (OnAddListener eventName o) s) as [_ Hm].
    by destruct (then_of (_polylines s !! polyline)
                   (OnAddListener eventName o) s) as [[d|err] s']. }
  assert (forall r l,
      _polylines (react r l s).2
      = match r with
        | OnDelete polyline => delete polyline (_polylines s)
        | _ => _polylines s
        end) as Hreact.
  { intros r l.
    destruct (react_spec r l s) as (s' & Hs' & _ & _ & _ & _ & _ & Hr).
    rewrite Hs'. cbn [snd]. destruct r; apply Hr. }
  split; [intros e; by rewrite GetCoordinatesFromClick_frame|].
  split; [done|]. split; [exact Hset|]. split; [exact Hupd|].
  split; [exact Hsub|]. split; [exact Hdel|].
  split.
  { intros fn e. by destruct (listener_apply_spec fn e s) as (o & _ & ->). }
  split; [exact Hreact|]. split; [done|].
  intros a. destruct a; cbn [step]; try (left; done); try (right; left; by eauto).
  - left. by rewrite GetCoordinatesFromClick_frame.
  - left. apply fulfil_spec.
  - left. apply reject_spec.
  - destruct (jobs s) as [|j q] eqn:Hj.
    { left. by rewrite run_job_idle. }
    destruct (run_job_head j q s Hj) as (s' & Hs' & _ & _ & _ & _ & Hrest).
    rewrite Hs'. destruct j as [r l d|reason d]; [|left; apply Hrest].
    destruct Hrest as (_ & _ & Hm & _). rewrite Hm, Hreact.
    destruct r; try (left; done). right. right. by eauto 10.
  - left. by rewrite fire_spec.
Qed.

(** ** Adding a component twice *)

(** C10. The map never holds two entries for one component.  When
    [AddPolyline] is called in a reachable state with a component that
    already has an entry, the entry is overwritten with the new promise
    from [MapService.CreatePolyline], which differs from the old one; the
    map keeps its size and its keys.  The only external call made is
    [CreatePolyline]: the old promise is left as it was, nothing is
    queued, and no [Delete] reaches the polyline created before. *)
Theorem second_AddPolyline_overwrites (polyline : component)
    (p_old : promise) (s : state) :
  reachable s ->
  _polylines s !! polyline = Some p_old ->
  (forall s0 : state, NoDup (map_to_list (_polylines s0)).*1) /\
  exists (p_new : promise) (s' : state),
    AddPolyline polyline s = (Ok tt, s') /\
    p_new <> p_old /\
    _polylines s' = <[polyline := p_new]> (_polylines s) /\
    _polylines s' !! polyline = Some p_new /\
    size (_polylines s') = size (_polylines s) /\
    dom (_polylines s') = dom (_polylines s) /\
    handles s' !! p_old = handles s !! p_old /\
    handles s' !! p_new = Some (Pending []) /\
    jobs s' = jobs s /\
    trace s'
    = trace s ++ [(zone s, CreatePolylineCall (options_of (components s polyline))
                             p_new)] /\
    (forall depth l, (depth, DeleteCall l) ∈ trace s' ->
                     (depth, DeleteCall l) ∈ trace s).
Proof.
  intros Hreach Hold. split; [intros s0; apply NoDup_fst_map_to_list|].
  exists (fresh (dom (handles s))), (AddPolyline polyline s).2.
  assert (fresh (dom (handles s)) <> p_old) as Hne.
  { intros Heq. apply (is_fresh (dom (handles s))). rewrite Heq.
    by apply (wf_polylines s (reachable_wf s Hreach) polyline). }
  rewrite AddPolyline_unfold. cbn.
  split; [done|]. split; [done|]. split; [done|].
  split; [apply lookup_insert_eq|].
  split; [by apply map_size_insert_Some|].
  split; [by apply dom_insert_lookup_L|].
  split; [by apply lookup_insert_ne|].
  split; [apply lookup_insert_eq|]. split; [done|]. split; [done|].
  intros depth l [Hin|Hin]%elem_of_app; [done|].
  by apply list_elem_of_singleton in Hin.
Qed.

Lemma second_AddPolyline_overwrites_witness :
  reachable tracked_state /\
  _polylines tracked_state !! 1%positive = Some 1%positive /\
  exists (p_new : promise) (s' : state),
    AddPolyline 1 tracked_state = (Ok tt, s') /\
    p_new <> 1%positive /\
    _polylines s' !! 1%positive = Some p_new /\
    size (_polylines s') = size (_polylines tracked_state).
Proof.
  assert (_polylines tracked_state !! 1%positive = Some 1%positive) as H1
    by reflexivity.
  split; [exact tracked_state_reachable|]. split; [exact H1|].
  destruct (second_AddPolyline_overwrites 1 1 tracked_state
              tracked_state_reachable H1)
    as [_ (p_new & s' & Hadd & Hne & _ & Hlook & Hsize & _)].
  exists p_new, s'.
  split; [exact Hadd|]. split; [exact Hne|]. split; [exact Hlook|exact Hsize].
Defined.

(** * Further properties of the service *)

(** ** One component's entry and the others *)

Lemma step_polylines (a : action) (s : state) :
  _polylines (step a s)
  = match a with
    | CallAddPolyline polyline =>
        <[polyline := fresh (dom (handles s))]> (_polylines s)
    | RuntimeRunsJob =>
        match jobs s with
        | Reaction (OnDelete polyline) _ _ :: _ => delete polyline (_polylines s)
        | _ => _polylines s
        end
    | _ => _polylines s
    end.
Proof.
  destruct a; cbn [step].
  - done.
  - unfold CreateEventObservable, polylines_get, bind.
    pose proof (then_of_trace (_polylines s !! polyline)
                  (OnAddListener eventName observer_) s) as [_ Hm].
    by destruct (then_of (_polylines s !! polyline)
                   (OnAddListener eventName observer_) s) as [[d|err] s'].
  - unfold DeletePolyline, polylines_get, bind.
    destruct (_polylines s !! polyline) as [p|]; [|done].
    by destruct (then_spec p (OnDelete polyline) s) as (s' & -> & _ & ? & _).
  - by rewrite GetCoordinatesFromClick_frame.
  - done.
  - unfold SetOptions, polylines_get, bind. apply then_of_trace.
  - unfold UpdatePolyline, polylines_get, bind.
    destruct (_polylines s !! polyline) as [p|]; [|done].
    by destruct (then_spec p (OnSetPath polyline) s) as (s' & -> & _ & ? & _).
  - apply fulfil_spec.
  - apply reject_spec.
  - destruct (jobs s) as [|j q] eqn:Hj; [by rewrite run_job_idle|].
    destruct (run_job_head j q s Hj) as (s' & -> & _ & _ & _ & _ & Hrest).
    destruct j as [r l d|reason d]; [|apply Hrest].
    destruct Hrest as (_ & _ & -> & _).
    destruct (react_spec r l s) as (s2 & -> & _ & _ & _ & _ & _ & Hr).
    cbn [snd]. destruct r; apply Hr.
  - by rewrite fire_spec.
  - done.
Qed.

(** X1. The entry of a component changes only when [AddPolyline] is
    called with that component, or when the runtime runs the function
    that [DeletePolyline] registered for that component: no call and no
    step made for one component touches the entry of another. *)
Theorem entry_changes_by_own_operations (a : action) (s : state)
    (polyline : component) :
  _polylines (step a s) !! polyline = _polylines s !! polyline \/
  a = CallAddPolyline polyline \/
  (a = RuntimeRunsJob /\
   exists l d q, jobs s = Reaction (OnDelete polyline) l d :: q).
Proof.
  rewrite step_polylines. destruct a; try (by left).
  - destruct (decide (polyline0 = polyline)) as [->|Hne]; [right; by left|].
    left. by rewrite lookup_insert_ne.
  - destruct (jobs s) as [|[[| c | |] l d|reason d] q]; try (by left).
    destruct (decide (c = polyline)) as [->|Hne]; [right; right; by eauto|].
    left. by rewrite lookup_delete_ne.
Qed.

(** ** The zone around each external call *)

Lemma step_levels (a : action) (s : state) :
  zone (step a s) = zone s /\
  exists new, trace (step a s) = trace s ++ new /\
              Forall (at_levels (zone s)) new.
Proof.
  assert (forall s', zone s' = zone s -> trace s' = trace s ->
            zone s' = zone s /\
            exists new, trace s' = trace s ++ new /\
                        Forall (at_levels (zone s)) new) as Hsame.
  { intros s' Hz Ht. split; [done|]. exists []. by rewrite app_nil_r. }
  assert (forall p r, zone (then_ p r s).2 = zone s /\
                      trace (then_ p r s).2 = trace s) as Hthen.
  { intros p r.
    by destruct (then_spec p r s) as (s' & -> & _ & _ & _ & _ & ? & ? & _). }
  destruct a; cbn [step].
  - split; [done|]. eexists. split; [reflexivity|].
    repeat constructor. unfold at_levels. cbn. lia.
  - unfold CreateEventObservable, polylines_get, bind.
    destruct (_polylines s !! polyline) as [p|]; cbn [then_of]; [|by apply Hsame].
    destruct (Hthen p (OnAddListener eventName observer_)) as [Hz Ht].
    destruct (then_ p (OnAddListener eventName observer_) s) as [[d|err] s'];
      by apply Hsame.
  - unfold DeletePolyline, polylines_get, bind.
    destruct (_polylines s !! polyline) as [p|]; [|by apply Hsame].
    apply Hsame; apply Hthen.
  - apply Hsame; by rewrite GetCoordinatesFromClick_frame.
  - by apply Hsame.
  - unfold SetOptions, polylines_get, bind.
    destruct (_polylines s !! polyline) as [p|]; cbn [then_of]; [|by apply Hsame].
    apply Hsame; apply Hthen.
  - unfold UpdatePolyline, polylines_get, bind.
    destruct (_polylines s !! polyline) as [p|]; [|by apply Hsame].
    apply Hsame; apply Hthen.
  - apply Hsame; apply fulfil_spec.
  - apply Hsame; apply reject_spec.
  - destruct (jobs s) as [|j q] eqn:Hj.
    { rewrite run_job_idle by done. by apply Hsame. }
    destruct (run_job_head j q s Hj) as (s' & -> & _ & _ & _ & Hz & Hrest).
    destruct j as [r l d|reason d]; [|apply Hsame; [done|apply Hrest]].
    split; [done|]. destruct Hrest as (_ & -> & _).
    destruct (react_spec r l s) as (s2 & -> & _ & _ & _ & _ & _ & Hr).
    cbn [snd].
    destruct r; destruct Hr as (-> & _); eexists; (split; [reflexivity|]);
      repeat constructor; unfold at_levels; cbn; lia.
  - rewrite fire_spec. split; [done|]. cbn. eexists. split; [reflexivity|].
    apply Forall_forall. intros x [fn [-> _]]%list_elem_of_fmap.
    unfold at_levels. cbn. lia.
  - by apply Hsame.
Qed.

Lemma run_levels (acts : list action) (s : state) :
  Forall (at_levels (zone s)) (trace s) ->
  zone (run acts s) = zone s /\
  Forall (at_levels (zone s)) (trace (run acts s)).
Proof.
  revert s. induction acts as [|a acts IH]; intros s Hs; [done|].
  cbn. destruct (step_levels a s) as (Hz & new & Ht & Hnew).
  destruct (IH (step a s)) as [Hz' Hall].
  - rewrite Hz, Ht. by apply Forall_app.
  - rewrite Hz in Hz', Hall. by split.
Qed.

(** X2. Whatever is called on a new service and whatever the runtime and
    the platform do, the zone is left as often as it is entered, and each
    external call is made at its own depth: [Delete], [SetPath] and
    [observer.next] exactly one level inside the zone; [CreatePolyline],
    [AddListener] and, unlike [SetPath], [SetOptions] outside it. *)
Theorem external_calls_zone_levels (cs : component -> MapPolylineComponent)
    (acts : list action) :
  zone (run acts (initial cs)) = 0 /\
  (forall depth c,
      (depth, c) ∈ trace (run acts (initial cs)) ->
      depth = match c with
              | DeleteCall _ | SetPathCall _ _ | NextCall _ _ => 1
              | _ => 0
              end).
Proof.
  destruct (run_levels acts (initial cs)) as [Hz Hall]; [constructor|].
  split; [exact Hz|]. intros depth c Hin.
  rewrite Forall_forall in Hall. apply Hall in Hin.
  unfold at_levels in Hin. cbn in Hin. by destruct c.
Qed.

(** ** Nothing happens that was not asked for *)

Lemma requested_mono (acts acts' : list action) (r : reaction) :
  acts ⊆ acts' -> requested acts r -> requested acts' r.
Proof.
  intros Hsub. destruct r; cbn; [intros [c Hc]; exists c| |intros [c Hc]; exists c|];
    by apply Hsub.
Qed.

Lemma given_mono (acts acts' : list action) (l : Polyline) :
  acts ⊆ acts' -> given acts l -> given acts' l.
Proof. intros Hsub [p Hp]. exists p. by apply Hsub. Qed.

Lemma justified_mono (acts acts' : list action) (c : call) :
  acts ⊆ acts' -> justified acts c -> justified acts' c.
Proof.
  intros Hsub. destruct c as [o p|l n [o]|l|l o|l v|o e]; cbn.
  - intros [c Hc]. exists c. by apply Hsub.
  - intros [[c Hc] Hl]. split; [exists c; by apply Hsub|by eapply given_mono].
  - intros [[c Hc] Hl]. split; [exists c; by apply Hsub|by eapply given_mono].
  - intros [[c Hc] Hl]. split; [exists c; by apply Hsub|by eapply given_mono].
  - intros [[c Hc] Hl]. split; [exists c; by apply Hsub|by eapply given_mono].
  - intros (l & n & [c Hc] & Hl & Hf). exists l, n.
    split; [exists c; by apply Hsub|]. split; [by eapply given_mono|by apply Hsub].
Qed.

Lemma accounted_mono (acts acts' : list action) (s : state) :
  acts ⊆ acts' -> accounted acts s -> accounted acts' s.
Proof.
  intros Hsub [A1 A2 A3 A4 A5 A6]. split.
  - intros r l d Hin. destruct (A1 r l d Hin).
    split; [by eapply requested_mono|by eapply given_mono].
  - intros p ws w Hp Hw. eapply requested_mono; [done|]. by eapply A2.
  - intros p l Hp. by apply Hsub, A3.
  - intros l n o Hin. destruct (A4 l n o Hin).
    split; [by eapply requested_mono|by eapply given_mono].
  - intros x Hx. eapply justified_mono; [done|]. by apply A5.
  - intros c p Hc. destruct (A6 c p Hc). split; [by apply Hsub|done].
Qed.

Lemma accounted_frame (acts : list action) (s s' : state) :
  jobs s' = jobs s -> handles s' = handles s -> listeners s' = listeners s ->
  trace s' = trace s -> _polylines s' = _polylines s ->
  accounted acts s -> accounted acts s'.
Proof.
  intros Hj Hh Hl Ht Hm [A1 A2 A3 A4 A5 A6].
  split; rewrite ?Hj, ?Hh, ?Hl, ?Ht, ?Hm; assumption.
Qed.

Lemma accounted_initial (cs : component -> MapPolylineComponent) :
  accounted [] (initial cs).
Proof.
  split; cbn.
  - intros r l d Hin. by apply elem_of_nil in Hin.
  - intros p ws w Hp. by rewrite lookup_empty in Hp.
  - intros p l Hp. by rewrite lookup_empty in Hp.
  - intros l n o Hin. by apply elem_of_nil in Hin.
  - intros x Hin. by apply elem_of_nil in Hin.
  - intros c p Hc. by rewrite lookup_empty in Hc.
Qed.

Lemma accounted_then (acts : list action) (p : promise) (r : reaction)
    (s : state) :
  requested acts r -> accounted acts s -> accounted acts (then_ p r s).2.
Proof.
  intros Hr [A1 A2 A3 A4 A5 A6].
  destruct (then_spec p r s) as (s' & -> & _ & Hm & _ & Hl & _ & Ht & Hh).
  cbn [snd].
  destruct (handles s !! p) as [h|] eqn:Hp; cbn [default] in Hh;
    [destruct h as [ws|l|reason]|]; destruct Hh as [Hh Hq]; split;
    rewrite ?Hq, ?Hh, ?Hl, ?Ht, ?Hm; try assumption.
  - intros p' ws' w. destruct (decide (p = p')) as [<-|Hne].
    + rewrite lookup_insert_eq. intros [= <-] [Hw|Hw]%elem_of_app.
      * by eapply A2.
      * apply list_elem_of_singleton in Hw. by subst w.
    + rewrite lookup_insert_ne by done. apply A2.
  - intros p' l. destruct (decide (p = p')) as [<-|Hne].
    + by rewrite lookup_insert_eq.
    + rewrite lookup_insert_ne by done. apply A3.
  - intros r' l' d' [Hin|Hin]%elem_of_app; [by eapply A1|].
    apply list_elem_of_singleton in Hin. injection Hin as -> -> ->.
    split; [done|]. exists p. by apply A3.
  - intros r' l' d' [Hin|Hin]%elem_of_app; [by eapply A1|].
    by apply list_elem_of_singleton in Hin.
  - intros p' ws' w. destruct (decide (p = p')) as [<-|Hne].
    + rewrite lookup_insert_eq. intros [= <-] Hw.
      apply list_elem_of_singleton in Hw. by subst w.
    + rewrite lookup_insert_ne by done. apply A2.
  - intros p' l. destruct (decide (p = p')) as [<-|Hne].
    + by rewrite lookup_insert_eq.
    + rewrite lookup_insert_ne by done. apply A3.
Qed.

Lemma accounted_AddPolyline (acts : list action) (polyline : component)
    (s : state) :
  CallAddPolyline polyline ∈ acts -> accounted acts s ->
  accounted acts (AddPolyline polyline s).2.
Proof.
  intros Ha [A1 A2 A3 A4 A5 A6]. rewrite AddPolyline_unfold. split; cbn.
  - done.
  - intros p ws w. destruct (decide (fresh (dom (handles s)) = p)) as [<-|Hne].
    + rewrite lookup_insert_eq. intros [= <-] Hw. by apply elem_of_nil in Hw.
    + rewrite lookup_insert_ne by done. apply A2.
  - intros p l. destruct (decide (fresh (dom (handles s)) = p)) as [<-|Hne].
    + by rewrite lookup_insert_eq.
    + rewrite lookup_insert_ne by done. apply A3.
  - done.
  - intros x [Hx|Hx]%elem_of_app; [by apply A5|].
    apply list_elem_of_singleton in Hx. subst x. cbn. by exists polyline.
  - intros c p. destruct (decide (polyline = c)) as [<-|Hne].
    + rewrite lookup_insert_eq. intros [= <-]. split; [done|].
      eexists _, _. apply elem_of_app. right. by apply list_elem_of_singleton.
    + rewrite lookup_insert_ne by done. intros Hc.
      destruct (A6 c p Hc) as (? & depth & o & Hin). split; [done|].
      exists depth, o. apply elem_of_app. by left.
Qed.

Lemma accounted_fulfil (acts : list action) (p : promise) (l : Polyline)
    (s : state) :
  PlatformFulfils p l ∈ acts -> accounted acts s -> accounted acts (fulfil p l s).
Proof.
  intros Ha Hacc.
  destruct (fulfil_spec p l s) as (_ & Hm & _ & Hl & _ & Ht & Hh).
  destruct (handles s !! p) as [[ws|l'|reason]|] eqn:Hp;
    try (destruct Hh as [Hh Hq]; by apply (accounted_frame _ s)).
  destruct Hh as [Hh Hq]. destruct Hacc as [A1 A2 A3 A4 A5 A6].
  split; rewrite ?Hq, ?Hh, ?Hl, ?Ht, ?Hm; try assumption.
  - intros r l' d [Hin|Hin]%elem_of_app; [by eapply A1|].
    apply list_elem_of_fmap in Hin as [w [Heq Hw]].
    injection Heq as -> -> ->. split; [by eapply A2|by exists p].
  - intros p' ws' w. destruct (decide (p = p')) as [<-|Hne].
    + by rewrite lookup_insert_eq.
    + rewrite lookup_insert_ne by done. apply A2.
  - intros p' l'. destruct (decide (p = p')) as [<-|Hne].
    + rewrite lookup_insert_eq. by intros [= <-].
    + rewrite lookup_insert_ne by done. apply A3.
Qed.

Lemma accounted_reject (acts : list action) (p : promise) (reason : exn)
    (s : state) :
  accounted acts s -> accounted acts (reject p reason s).
Proof.
  intros Hacc.
  destruct (reject_spec p reason s) as (_ & Hm & _ & Hl & _ & Ht & Hh).
  destruct (handles s !! p) as [[ws|l'|reason']|] eqn:Hp;
    try (destruct Hh as [Hh Hq]; by apply (accounted_frame _ s)).
  destruct Hh as [Hh Hq]. destruct Hacc as [A1 A2 A3 A4 A5 A6].
  split; rewrite ?Hq, ?Hh, ?Hl, ?Ht, ?Hm; try assumption.
  - intros r l' d [Hin|Hin]%elem_of_app; [by eapply A1|].
    by apply list_elem_of_fmap in Hin as [w [Heq Hw]].
  - intros p' ws' w. destruct (decide (p = p')) as [<-|Hne].
    + by rewrite lookup_insert_eq.
    + rewrite lookup_insert_ne by done. apply A2.
  - intros p' l'. destruct (decide (p = p')) as [<-|Hne].
    + by rewrite lookup_insert_eq.
    + rewrite lookup_insert_ne by done. apply A3.
Qed.

Lemma accounted_run_job (acts : list action) (s : state) :
  accounted acts s -> accounted acts (run_job s).
Proof.
  intros Hacc. destruct (jobs s) as [|j q] eqn:Hj.
  { by rewrite run_job_idle. }
  destruct (run_job_head j q s Hj) as (s' & -> & Hq & Hh & _ & _ & Hrest).
  destruct Hacc as [A1 A2 A3 A4 A5 A6].
  assert (forall r l d, Reaction r l d ∈ q ->
                        requested acts r /\ given acts l) as A1'.
  { intros r l d Hin. apply (A1 r l d). rewrite Hj.
    by apply list_elem_of_further. }
  destruct j as [r l d|reason d]; cycle 1.
  { destruct Hrest as (_ & Ht & Hm & Hl).
    split; rewrite ?Hq, ?Hh, ?Hl, ?Ht, ?Hm; assumption. }
  destruct Hrest as (_ & Ht & Hm & Hl).
  destruct (A1 r l d) as [Hr Hg]; [rewrite Hj; apply list_elem_of_here|].
  destruct (react_spec r l s) as (s2 & Hs2 & _ & _ & _ & _ & _ & Hrs).
  rewrite Hs2 in Ht, Hm, Hl. cbn [snd] in Ht, Hm, Hl.
  assert (exists c, trace s' = trace s ++ [c] /\ justified acts c.2)
    as (c & Htc & Hjc).
  { destruct r; destruct Hrs as (Hts & _); eexists; (split; [by rewrite Ht, Hts|]);
      cbn; eauto. }
  split; rewrite ?Hq, ?Hh; try assumption.
  - intros l' n o. rewrite Hl.
    destruct r; destruct Hrs as (_ & -> & _); try apply A4.
    intros [Hin|Hin]%elem_of_app; [by apply A4|].
    apply list_elem_of_singleton in Hin. by injection Hin as -> -> ->.
  - intros x. rewrite Htc. intros [Hx|Hx]%elem_of_app; [by apply A5|].
    apply list_elem_of_singleton in Hx. by subst x.
  - intros c' p. rewrite Hm, Htc. intros Hc.
    assert (_polylines s !! c' = Some p) as Hold.
    { destruct r; destruct Hrs as (_ & _ & Hms); rewrite Hms in Hc; try done.
      by apply lookup_delete_Some in Hc as [_ ?]. }
    destruct (A6 c' p Hold) as (? & depth & o & Hin). split; [done|].
    exists depth, o. apply elem_of_app. by left.
Qed.

Lemma elem_of_registered (l : Polyline) (eventName : string) (fn : listener)
    (ls : list (Polyline * string * listener)) :
  fn ∈ registered l eventName ls -> (l, eventName, fn) ∈ ls.
Proof.
  unfold registered. intros [[[l' n'] fn'] [Hin Hsome]]%list_elem_of_omap.
  cbn in Hsome. destruct (decide ((l', n') = (l, eventName))) as [[= -> ->]|];
    [|done].
  by injection Hsome as ->.
Qed.

Lemma accounted_fire (acts : list action) (l : Polyline) (eventName : string)
    (e : value) (s : state) :
  PlatformFires l eventName e ∈ acts -> accounted acts s ->
  accounted acts (fire l eventName e s).
Proof.
  intros Ha [A1 A2 A3 A4 A5 A6]. rewrite fire_spec. split; cbn; try assumption.
  - intros x [Hx|Hx]%elem_of_app; [by apply A5|].
    apply list_elem_of_fmap in Hx as [[o] [-> Hfn]]. cbn.
    apply elem_of_registered in Hfn. destruct (A4 _ _ _ Hfn) as [Hr Hg].
    by exists l, eventName.
  - intros c p Hc. destruct (A6 c p Hc) as (? & depth & o & Hin).
    split; [done|]. exists depth, o. apply elem_of_app. by left.
Qed.

Lemma accounted_step (acts : list action) (a : action) (s : state) :
  a ∈ acts -> accounted acts s -> accounted acts (step a s).
Proof.
  intros Ha Hacc. destruct a; cbn [step].
  - by apply accounted_AddPolyline.
  - unfold CreateEventObservable, polylines_get, bind.
    destruct (_polylines s !! polyline) as [p|]; cbn [then_of]; [|done].
    assert (accounted acts (then_ p (OnAddListener eventName observer_) s).2)
      as H by (apply accounted_then; [by exists polyline|done]).
    by destruct (then_ p (OnAddListener eventName observer_) s) as [[d|err] s'].
  - unfold DeletePolyline, polylines_get, bind.
    destruct (_polylines s !! polyline) as [p|];
      [by apply accounted_then|by apply (accounted_frame _ s)].
  - by rewrite GetCoordinatesFromClick_frame.
  - done.
  - unfold SetOptions, polylines_get, bind.
    destruct (_polylines s !! polyline) as [p|]; cbn [then_of]; [|done].
    apply accounted_then; [by exists polyline|done].
  - unfold UpdatePolyline, polylines_get, bind.
    destruct (_polylines s !! polyline) as [p|];
      [by apply accounted_then|by apply (accounted_frame _ s)].
  - by apply accounted_fulfil.
  - by apply accounted_reject.
  - by apply accounted_run_job.
  - by apply accounted_fire.
  - by apply (accounted_frame _ s).
Qed.

Lemma run_accounted_from (done_ acts : list action) (s : state) :
  accounted done_ s -> accounted (done_ ++ acts) (run acts s).
Proof.
  revert done_ s. induction acts as [|a acts IH]; intros done_ s Hacc.
  - by rewrite app_nil_r.
  - cbn. replace (done_ ++ a :: acts) with ((done_ ++ [a]) ++ acts)
      by (by rewrite <- app_assoc).
    apply IH. apply accounted_step.
    + apply elem_of_app. right. by apply list_elem_of_singleton.
    + eapply accounted_mono; [|done]. intros x Hx. apply elem_of_app. by left.
Qed.

Lemma run_accounted (cs : component -> MapPolylineComponent)
    (acts : list action) :
  accounted acts (run acts (initial cs)).
Proof. apply (run_accounted_from [] acts), accounted_initial. Qed.

(** X3. In every state a new service can reach, a component has an entry
    only if [AddPolyline] was called with it, and the promise it is bound
    to is one that a call of [MapService.CreatePolyline] returned: what
    [GetNativeMarker] gives is never a promise of another origin. *)
Theorem map_holds_only_added (cs : component -> MapPolylineComponent)
    (acts : list action) (polyline : component) (p : promise) :
  (GetNativeMarker polyline (run acts (initial cs))).1 = Ok (Some p) ->
  CallAddPolyline polyline ∈ acts /\
  exists depth o,
    (depth, CreatePolylineCall o p) ∈ trace (run acts (initial cs)).
Proof.
  unfold GetNativeMarker, polylines_get. cbn [fst]. intros [= Hp].
  by apply (acc_polylines _ _ (run_accounted cs acts)).
Qed.

Lemma map_holds_only_added_witness :
  (GetNativeMarker 1 (run sample_scenario sample_state)).1 = Ok (Some 1%positive) /\
  CallAddPolyline 1 ∈ sample_scenario.
Proof.
  assert ((GetNativeMarker 1 (run sample_scenario sample_state)).1
          = Ok (Some 1%positive)) as H by reflexivity.
  split; [exact H|].
  exact (proj1 (map_holds_only_added (fun _ => sample_component)
                  sample_scenario 1 1 H)).
Defined.

(** X4. The service calls the platform only when asked.  In every run
    from a new service: [CreatePolyline] is called only if [AddPolyline]
    was; [l.Delete()] only if [DeletePolyline] was called; 
    [l.SetOptions(options)] only if [SetOptions] was called with that very
    options object; [l.SetPath] only if [UpdatePolyline] was called;
    [l.AddListener(eventName, ...)] only if the observable for that event
    name was subscribed to; and the handle [l] of each of these calls is
    one the platform fulfilled a promise with. *)
Theorem platform_called_only_on_request
    (cs : component -> MapPolylineComponent) (acts : list action) (depth : nat) :
  let t := trace (run acts (initial cs)) in
  (forall o p, (depth, CreatePolylineCall o p) ∈ t ->
               exists polyline, CallAddPolyline polyline ∈ acts) /\
  (forall l, (depth, DeleteCall l) ∈ t ->
             (exists polyline, CallDeletePolyline polyline ∈ acts) /\
             exists p, PlatformFulfils p l ∈ acts) /\
  (forall l options, (depth, SetOptionsCall l options) ∈ t ->
             (exists polyline, CallSetOptions polyline options ∈ acts) /\
             exists p, PlatformFulfils p l ∈ acts) /\
  (forall l path_, (depth, SetPathCall l path_) ∈ t ->
             (exists polyline, CallUpdatePolyline polyline ∈ acts) /\
             exists p, PlatformFulfils p l ∈ acts) /\
  (forall l eventName observer_,
      (depth, AddListenerCall l eventName (Emit observer_)) ∈ t ->
      (exists polyline, CallSubscribe eventName polyline observer_ ∈ acts) /\
      exists p, PlatformFulfils p l ∈ acts).
Proof.
  intros t. pose proof (acc_trace _ _ (run_accounted cs acts)) as Hj. fold t in Hj.
  split; [|split; [|split; [|split]]].
  - intros o p Hin. exact (Hj _ Hin).
  - intros l Hin. exact (Hj _ Hin).
  - intros l options Hin. exact (Hj _ Hin).
  - intros l path_ Hin. exact (Hj _ Hin).
  - intros l eventName observer_ Hin. exact (Hj _ Hin).
Qed.

Lemma platform_called_only_on_request_witness :
  (1, DeleteCall 4) ∈ trace (run sample_session sample_state) /\
  (exists polyline, CallDeletePolyline polyline ∈ sample_session) /\
  exists p, PlatformFulfils p 4 ∈ sample_session.
Proof.
  assert ((1, DeleteCall 4) ∈ trace (run sample_session sample_state)) as H.
  { apply list_elem_of_In. vm_compute. do 5 right. left. reflexivity. }
  split; [exact H|].
  destruct (platform_called_only_on_request (fun _ => sample_component)
              sample_session 1) as (_ & Hdel & _).
  exact (Hdel 4%positive H).
Defined.

(** X5. An observer is notified only of what happened: in every run from
    a new service, [observer.next(e)] is called only if that observer
    subscribed to the observable of some event name, and the platform
    raised an event of that name, carrying that very [e], on a handle it
    had given. *)
Theorem observer_notified_only_of_events
    (cs : component -> MapPolylineComponent) (acts : list action)
    (depth : nat) (observer_ : observer) (e : value) :
  (depth, NextCall observer_ e) ∈ trace (run acts (initial cs)) ->
  exists l eventName,
    (exists polyline, CallSubscribe eventName polyline observer_ ∈ acts) /\
    (exists p, PlatformFulfils p l ∈ acts) /\
    PlatformFires l eventName e ∈ acts.
Proof.
  intros Hin. exact (acc_trace _ _ (run_accounted cs acts) _ Hin).
Qed.

Lemma observer_notified_only_of_events_witness :
  (1, NextCall 9 sample_click) ∈ trace (run sample_scenario sample_state) /\
  exists l eventName,
    (exists polyline, CallSubscribe eventName polyline 9 ∈ sample_scenario) /\
    (exists p, PlatformFulfils p l ∈ sample_scenario) /\
    PlatformFires l eventName sample_click ∈ sample_scenario.
Proof.
  assert ((1, NextCall 9 sample_click)
          ∈ trace (run sample_scenario sample_state)) as H.
  { apply list_elem_of_In. vm_compute. right. right. left. reflexivity. }
  split; [exact H|].
  exact (observer_notified_only_of_events (fun _ => sample_component)
           sample_scenario 1 9%positive sample_click H).
Defined.

Lemma external_calls_zone_levels_witness :
  (1, DeleteCall 4) ∈ trace (run sample_session sample_state) /\
  zone (run sample_session sample_state) = 0 /\ 1 = 1.
Proof.
  assert ((1, DeleteCall 4) ∈ trace (run sample_session sample_state)) as H.
  { apply list_elem_of_In. vm_compute. do 5 right. left. reflexivity. }
  split; [exact H|].
  destruct (external_calls_zone_levels (fun _ => sample_component)
              sample_session) as [Hz Hd].
  split; [exact Hz|]. exact (Hd 1 (DeleteCall 4) H).
Defined.

(** ** When the platform rejects the promise *)

Lemma then_reject_head (p : promise) (r : reaction) (reason : exn)
    (h : hstate) (s : state) :
  handles s !! p = Some h -> may_fail h reason ->
  let d := fresh (dom (voids s)) in
  let s1 := reject p reason (then_ p r s).2 in
  let s2 := run_jobs (pred (length (jobs s1))) s1 in
  (then_ p r s).1 = Ok d /\
  jobs s2 = [Rejection reason d] /\
  (wf s -> voids s2 !! d = Some VoidPending).
Proof.
  intros Hp Hfail d s1 s2.
  destruct (then_spec p r s) as (s0 & Hthen & Hv & _ & _ & _ & _ & _ & Hh).
  fold d in Hthen, Hv, Hh. subst s2 s1. rewrite Hthen. cbn [fst snd].
  destruct (reject_spec p reason s0) as (Hv1 & _ & _ & _ & _ & _ & Hh1).
  set (s1 := reject p reason s0) in *.
  assert (exists q, jobs s1 = q ++ [Rejection reason d] /\
                    (wf s -> Forall (fun j => derived_of j <> d) q))
    as (q & Hq & Hahead).
  { assert (forall j, wf s -> j ∈ jobs s -> derived_of j <> d) as Hjobs.
    { intros j Hwf Hin Heq. apply (is_fresh (dom (voids s))). fold d.
      rewrite <- Heq. by apply (wf_jobs s Hwf j). }
    rewrite Hp in Hh. cbn [default] in Hh.
    destruct h as [ws|l'|reason']; [|done|].
    - destruct Hh as [Hh Hj]. rewrite Hh, lookup_insert_eq in Hh1.
      destruct Hh1 as [_ ->]. rewrite Hj, map_app, app_assoc.
      exists (jobs s ++ map (queue_rejection reason) ws). split; [done|].
      intros Hwf. apply Forall_app. split.
      + apply Forall_forall. intros j Hin. by apply Hjobs.
      + apply Forall_forall. intros j [w [-> Hw]]%list_elem_of_fmap. cbn.
        intros Heq. apply (is_fresh (dom (voids s))). fold d. rewrite <- Heq.
        by apply (wf_waiting s Hwf p ws w).
    - cbn in Hfail. subst reason'. destruct Hh as [Hh Hj].
      rewrite Hh, Hp in Hh1. destruct Hh1 as [_ ->]. rewrite Hj.
      exists (jobs s). split; [done|].
      intros Hwf. apply Forall_forall. intros j Hin. by apply Hjobs. }
  assert (pred (length (jobs s1)) = length q) as ->.
  { rewrite Hq, length_app. cbn. lia. }
  destruct (run_jobs_frame (length q) s1) as (Hj & _).
  split; [done|]. split; [by rewrite Hj, Hq, drop_app_length|].
  intros Hwf. rewrite run_jobs_other.
  - rewrite Hv1, Hv. apply lookup_insert_eq.
  - rewrite Hq, take_app_length. by apply Hahead.
Qed.

(** The registered function never runs: its promise is rejected with the
    platform's reason, and nothing else changes. *)
Lemma rejected_in_turn (p : promise) (r : reaction) (reason : exn)
    (h : hstate) (s : state) :
  wf s -> handles s !! p = Some h -> may_fail h reason ->
  let s1 := reject p reason (then_ p r s).2 in
  let s2 := run_jobs (pred (length (jobs s1))) s1 in
  exists d : vpromise,
    (then_ p r s).1 = Ok d /\
    voids s2 !! d = Some VoidPending /\
    voids (run_job s2) !! d = Some (VoidRejected reason) /\
    trace (run_job s2) = trace s2 /\
    listeners (run_job s2) = listeners s2 /\
    _polylines (run_job s2) = _polylines s2.
Proof.
  intros Hwf Hp Hfail s1 s2.
  destruct (then_reject_head p r reason h s Hp Hfail) as (Hd & Hj & Hpend).
  fold s1 s2 in Hj, Hpend. eexists. split; [exact Hd|].
  split; [by apply Hpend|].
  destruct (run_job_head _ _ s2 Hj)
    as (s3 & -> & _ & _ & _ & _ & Hv & Ht & Hm & Hl).
  rewrite Hv, lookup_insert_eq. by repeat split.
Qed.

(** X6. Let a component have an entry in a reachable state, and let the
    platform reject its promise (now, or before the call).  Then the
    promise returned by [DeletePolyline], by [UpdatePolyline] and by
    [SetOptions] is pending until its turn in the job queue and is then
    rejected with the platform's reason; the registered function is not
    run, so that no [Delete], [SetPath] or [SetOptions] reaches the
    platform and [DeletePolyline] does not remove the entry. *)
Theorem rejection_passes_to_caller (polyline : component) (p : promise)
    (h : hstate) (reason : exn) (s : state) :
  reachable s ->
  _polylines s !! polyline = Some p ->
  handles s !! p = Some h ->
  may_fail h reason ->
  (let s1 := reject p reason (DeletePolyline polyline s).2 in
   let s2 := run_jobs (pred (length (jobs s1))) s1 in
   exists d : vpromise,
     (DeletePolyline polyline s).1 = Ok d /\
     voids s2 !! d = Some VoidPending /\
     voids (run_job s2) !! d = Some (VoidRejected reason) /\
     trace (run_job s2) = trace s2 /\
     listeners (run_job s2) = listeners s2 /\
     _polylines (run_job s2) = _polylines s2) /\
  (let s1 := reject p reason (UpdatePolyline polyline s).2 in
   let s2 := run_jobs (pred (length (jobs s1))) s1 in
   exists d : vpromise,
     (UpdatePolyline polyline s).1 = Ok d /\
     voids s2 !! d = Some VoidPending /\
     voids (run_job s2) !! d = Some (VoidRejected reason) /\
     trace (run_job s2) = trace s2 /\
     listeners (run_job s2) = listeners s2 /\
     _polylines (run_job s2) = _polylines s2) /\
  (forall options : IPolylineOptions,
   let s1 := reject p reason (SetOptions polyline options s).2 in
   let s2 := run_jobs (pred (length (jobs s1))) s1 in
   exists d : vpromise,
     (SetOptions polyline options s).1 = Ok d /\
     voids s2 !! d = Some VoidPending /\
     voids (run_job s2) !! d = Some (VoidRejected reason) /\
     trace (run_job s2) = trace s2 /\
     listeners (run_job s2) = listeners s2 /\
     _polylines (run_job s2) = _polylines s2).
Proof.
  intros Hreach Hm Hp Hfail. pose proof (reachable_wf s Hreach) as Hwf.
  split; [|split].
  - rewrite (DeletePolyline_tracked _ p) by done. by eapply rejected_in_turn.
  - rewrite (UpdatePolyline_tracked _ p) by done. by eapply rejected_in_turn.
  - intros options. rewrite (SetOptions_tracked _ _ p) by done.
    by eapply rejected_in_turn.
Qed.

Lemma rejection_passes_to_caller_witness :
  reachable tracked_state /\
  _polylines tracked_state !! 1%positive = Some 1%positive /\
  handles tracked_state !! 1%positive = Some (Pending []) /\
  may_fail (Pending []) (TypeError "map failed") /\
  exists d : vpromise,
    (DeletePolyline 1 tracked_state).1 = Ok d /\
    voids (run_job (reject 1 (TypeError "map failed")
                      (DeletePolyline 1 tracked_state).2)) !! d
    = Some (VoidRejected (TypeError "map failed")) /\
    _polylines (run_job (reject 1 (TypeError "map failed")
                           (DeletePolyline 1 tracked_state).2)) !! 1%positive
    = Some 1%positive.
Proof.
  assert (_polylines tracked_state !! 1%positive = Some 1%positive) as H1
    by reflexivity.
  assert (handles tracked_state !! 1%positive = Some (Pending [])) as H2
    by reflexivity.
  assert (may_fail (Pending []) (TypeError "map failed")) as H3 by exact I.
  split; [exact tracked_state_reachable|].
  split; [exact H1|]. split; [exact H2|]. split; [exact H3|].
  destruct (rejection_passes_to_caller 1 1 (Pending []) (TypeError "map failed")
              tracked_state tracked_state_reachable H1 H2 H3)
    as [(d & Hd & _ & Hv & _ & _ & Hm) _].
  exists d. split; [exact Hd|]. split; [exact Hv|].
  exact (eq_trans (f_equal (fun m => m !! 1%positive) Hm) eq_refl).
Defined.

(** ** Two calls on the same component *)

Lemma then_then_fulfil_queue (p : promise) (r1 r2 : reaction) (l : Polyline)
    (h : hstate) (s : state) :
  handles s !! p = Some h -> may_give h l ->
  let d1 := fresh (dom (voids s)) in
  let s1 := (then_ p r1 s).2 in
  let d2 := fresh (dom (voids s1)) in
  let s3 := fulfil p l (then_ p r2 s1).2 in
  (then_ p r1 s).1 = Ok d1 /\ (then_ p r2 s1).1 = Ok d2 /\ d1 <> d2 /\
  _polylines s1 = _polylines s /\
  zone s3 = zone s /\ components s3 = components s /\
  _polylines s3 = _polylines s /\
  exists q, jobs s3 = q ++ [Reaction r1 l d1; Reaction r2 l d2].
Proof.
  intros Hp Hgive. cbv zeta.
  destruct (then_spec p r1 s)
    as (s1 & Hthen1 & Hv1 & Hm1 & Hc1 & _ & Hz1 & _ & Hh1).
  rewrite Hthen1. cbn [fst snd].
  destruct (then_spec p r2 s1)
    as (s2 & Hthen2 & Hv2 & Hm2 & Hc2 & _ & Hz2 & _ & Hh2).
  rewrite Hthen2. cbn [fst snd].
  destruct (fulfil_spec p l s2) as (_ & Hm3 & Hc3 & _ & Hz3 & _ & Hh3).
  rewrite Hm3, Hc3, Hz3, Hm2, Hc2, Hz2, Hm1, Hc1, Hz1.
  split; [done|]. split; [done|]. split.
  { intros Heq. apply (is_fresh (dom (voids s1))). rewrite <- Heq, Hv1.
    rewrite dom_insert_L. apply elem_of_union_l. by apply elem_of_singleton. }
  do 4 (split; [done|]).
  rewrite Hp in Hh1. cbn [default] in Hh1.
  destruct h as [ws|l'|reason]; [| |done].
  - destruct Hh1 as [Hh1 Hj1]. rewrite Hh1, lookup_insert_eq in Hh2.
    cbn [default] in Hh2. destruct Hh2 as [Hh2 Hj2].
    rewrite Hh2, lookup_insert_eq in Hh3. destruct Hh3 as [_ ->].
    rewrite Hj2, Hj1, !map_app. cbn [map].
    exists (jobs s ++ map (queue_reaction l) ws).
    by rewrite <- !app_assoc.
  - cbn in Hgive. subst l'. destruct Hh1 as [Hh1 Hj1].
    rewrite Hh1, Hp in Hh2. cbn [default] in Hh2. destruct Hh2 as [Hh2 Hj2].
    rewrite Hh2, Hp in Hh3. destruct Hh3 as [_ ->].
    rewrite Hj2, Hj1. exists (jobs s). by rewrite <- app_assoc.
Qed.

(** Two registered functions come to the head of the queue together, in
    the order of their registration. *)
Lemma then_then_fulfil_head (p : promise) (r1 r2 : reaction) (l : Polyline)
    (h : hstate) (s : state) :
  handles s !! p = Some h -> may_give h l ->
  let d1 := fresh (dom (voids s)) in
  let s1 := (then_ p r1 s).2 in
  let d2 := fresh (dom (voids s1)) in
  let s3 := fulfil p l (then_ p r2 s1).2 in
  let s4 := run_jobs (length (jobs s3) - 2) s3 in
  (then_ p r1 s).1 = Ok d1 /\ (then_ p r2 s1).1 = Ok d2 /\ d1 <> d2 /\
  _polylines s1 = _polylines s /\
  zone s4 = zone s /\ components s4 = components s /\
  jobs s4 = [Reaction r1 l d1; Reaction r2 l d2].
Proof.
  intros Hp Hgive d1 s1 d2 s3 s4.
  destruct (then_then_fulfil_queue p r1 r2 l h s Hp Hgive)
    as (H1 & H2 & Hne & Hm1 & Hz & Hc & _ & q & Hq).
  fold d1 s1 d2 s3 in H1, H2, Hne, Hm1, Hz, Hc, Hq.
  assert (length (jobs s3) - 2 = length q) as Hn.
  { rewrite Hq, length_app. cbn. lia. }
  subst s4. rewrite Hn.
  destruct (run_jobs_frame (length q) s3) as (Hj & _ & Hc4 & Hz4).
  do 4 (split; [done|]). split; [congruence|]. split; [congruence|].
  by rewrite Hj, Hq, drop_app_length.
Qed.

(** Running two jobs, one after the other. *)
Lemma run_job_twice (r1 r2 : reaction) (l : Polyline) (d1 d2 : vpromise)
    (s : state) :
  jobs s = [Reaction r1 l d1; Reaction r2 l d2] ->
  let s' := (react r1 l s).2 in
  let s'' := (react r2 l (run_job s)).2 in
  jobs (run_job (run_job s)) = [] /\
  trace (run_job s) = trace s' /\
  zone (run_job s) = zone s /\ components (run_job s) = components s /\
  _polylines (run_job s) = _polylines s' /\
  trace (run_job (run_job s)) = trace s'' /\
  _polylines (run_job (run_job s)) = _polylines s'' /\
  voids (run_job (run_job s))
  = <[d2 := VoidFulfilled]> (<[d1 := VoidFulfilled]> (voids s)).
Proof.
  intros Hj. cbv zeta.
  destruct (run_job_head _ _ s Hj)
    as (s1 & Hs1 & Hq1 & _ & Hc1 & Hz1 & Hv1 & Ht1 & Hm1 & _).
  rewrite Hs1.
  destruct (run_job_head _ _ s1 Hq1)
    as (s2 & Hs2 & Hq2 & _ & _ & _ & Hv2 & Ht2 & Hm2 & _).
  rewrite Hs2. do 7 (split; [done|]). by rewrite Hv2, Hv1.
Qed.

(** X7. Calls take effect in the order they were made.  Let a component
    have an entry whose promise gives the handle [l], and let
    [SetOptions] be called on it twice, first with [first] and then with
    [second].  When the promise is fulfilled and the jobs queued before
    have run, the next two jobs call [l.SetOptions(first)] and then
    [l.SetOptions(second)], and the two promises returned, which are
    different, are fulfilled. *)
Theorem SetOptions_calls_keep_order (polyline : component) (p : promise)
    (h : hstate) (l : Polyline) (first second : IPolylineOptions) (s : state) :
  _polylines s !! polyline = Some p ->
  handles s !! p = Some h ->
  may_give h l ->
  let s1 := (SetOptions polyline first s).2 in
  let s3 := fulfil p l (SetOptions polyline second s1).2 in
  let s4 := run_jobs (length (jobs s3) - 2) s3 in
  exists d1 d2 : vpromise,
    (SetOptions polyline first s).1 = Ok d1 /\
    (SetOptions polyline second s1).1 = Ok d2 /\
    d1 <> d2 /\
    trace (run_job (run_job s4))
    = trace s4 ++ [(zone s, SetOptionsCall l first);
                   (zone s, SetOptionsCall l second)] /\
    voids (run_job (run_job s4)) !! d1 = Some VoidFulfilled /\
    voids (run_job (run_job s4)) !! d2 = Some VoidFulfilled.
Proof.
  intros Hm Hp Hgive. cbv zeta.
  destruct (then_then_fulfil_head p (OnSetOptions first) (OnSetOptions second)
              l h s Hp Hgive) as (H1 & H2 & Hne & Hm1 & Hz & _ & Hj).
  rewrite (SetOptions_tracked _ _ p) by done.
  rewrite (SetOptions_tracked _ _ p) by (by rewrite Hm1).
  set (s4 := run_jobs _ _) in *.
  eexists _, _. split; [exact H1|]. split; [exact H2|]. split; [exact Hne|].
  destruct (run_job_twice _ _ _ _ _ s4 Hj)
    as (_ & Ht1 & Hz1 & _ & _ & Ht2 & _ & Hv).
  rewrite Ht2, Hv.
  destruct (react_spec (OnSetOptions second) l (run_job s4))
    as (s6 & Hr6 & _ & _ & _ & _ & _ & Ht6 & _).
  rewrite Hr6. cbn [snd]. rewrite Ht6, Ht1, Hz1.
  destruct (react_spec (OnSetOptions first) l s4)
    as (s5 & Hr5 & _ & _ & _ & _ & _ & Ht5 & _).
  rewrite Hr5. cbn [snd]. rewrite Ht5, Hz, <- app_assoc. split; [done|].
  split; [|apply lookup_insert_eq].
  rewrite lookup_insert_ne by done. apply lookup_insert_eq.
Qed.

Lemma SetOptions_calls_keep_order_witness :
  _polylines tracked_state !! 1%positive = Some 1%positive /\
  handles tracked_state !! 1%positive = Some (Pending []) /\
  may_give (Pending []) 4 /\
  exists d1 d2 : vpromise,
    (SetOptions 1 (options_of sample_component) tracked_state).1 = Ok d1 /\
    d1 <> d2.
Proof.
  assert (_polylines tracked_state !! 1%positive = Some 1%positive) as H1
    by reflexivity.
  assert (handles tracked_state !! 1%positive = Some (Pending [])) as H2
    by reflexivity.
  assert (may_give (Pending []) 4) as H3 by exact I.
  split; [exact H1|]. split; [exact H2|]. split; [exact H3|].
  destruct (SetOptions_calls_keep_order 1 1 (Pending []) 4
              (options_of sample_component) (options_of sample_component)
              tracked_state H1 H2 H3)
    as (d1 & d2 & Hd1 & _ & Hne & _).
  exists d1, d2. split; [exact Hd1|exact Hne].
Defined.

(** X8. [DeletePolyline] called twice on a component, before its promise
    is fulfilled, deletes twice: both calls find the entry and register
    their function, and when the promise gives the handle [l] the two
    jobs call [l.Delete()] one after the other.  Both promises returned
    are fulfilled and the component has no entry. *)
Theorem DeletePolyline_twice_deletes_twice (polyline : component)
    (p : promise) (h : hstate) (l : Polyline) (s : state) :
  _polylines s !! polyline = Some p ->
  handles s !! p = Some h ->
  may_give h l ->
  let s1 := (DeletePolyline polyline s).2 in
  let s3 := fulfil p l (DeletePolyline polyline s1).2 in
  let s4 := run_jobs (length (jobs s3) - 2) s3 in
  exists d1 d2 : vpromise,
    (DeletePolyline polyline s).1 = Ok d1 /\
    (DeletePolyline polyline s1).1 = Ok d2 /\
    d1 <> d2 /\
    trace (run_job (run_job s4))
    = trace s4 ++ [(S (zone s), DeleteCall l); (S (zone s), DeleteCall l)] /\
    voids (run_job (run_job s4)) !! d1 = Some VoidFulfilled /\
    voids (run_job (run_job s4)) !! d2 = Some VoidFulfilled /\
    _polylines (run_job (run_job s4)) !! polyline = None.
Proof.
  intros Hm Hp Hgive. cbv zeta.
  destruct (then_then_fulfil_head p (OnDelete polyline) (OnDelete polyline)
              l h s Hp Hgive) as (H1 & H2 & Hne & Hm1 & Hz & _ & Hj).
  rewrite (DeletePolyline_tracked _ p) by done.
  rewrite (DeletePolyline_tracked _ p) by (by rewrite Hm1).
  set (s4 := run_jobs _ _) in *.
  eexists _, _. split; [exact H1|]. split; [exact H2|]. split; [exact Hne|].
  destruct (run_job_twice _ _ _ _ _ s4 Hj)
    as (_ & Ht1 & Hz1 & _ & _ & Ht2 & Hm2 & Hv).
  rewrite Ht2, Hm2, Hv.
  destruct (react_spec (OnDelete polyline) l (run_job s4))
    as (s6 & Hr6 & _ & _ & _ & _ & _ & Ht6 & _ & Hm6).
  rewrite Hr6. cbn [snd]. rewrite Ht6, Hm6, Ht1, Hz1.
  destruct (react_spec (OnDelete polyline) l s4)
    as (s5 & Hr5 & _ & _ & _ & _ & _ & Ht5 & _).
  rewrite Hr5. cbn [snd]. rewrite Ht5, Hz, <- app_assoc. split; [done|].
  split; [rewrite lookup_insert_ne by done; apply lookup_insert_eq|].
  split; [apply lookup_insert_eq|apply lookup_delete_eq].
Qed.

Lemma DeletePolyline_twice_deletes_twice_witness :
  _polylines tracked_state !! 1%positive = Some 1%positive /\
  handles tracked_state !! 1%positive = Some (Pending []) /\
  may_give (Pending []) 4 /\
  trace (run_job (run_job
           (fulfil 1 4 (DeletePolyline 1 (DeletePolyline 1 tracked_state).2).2)))
  = trace tracked_state ++ [(1, DeleteCall 4); (1, DeleteCall 4)].
Proof.
  assert (_polylines tracked_state !! 1%positive = Some 1%positive) as H1
    by reflexivity.
  assert (handles tracked_state !! 1%positive = Some (Pending [])) as H2
    by reflexivity.
  assert (may_give (Pending []) 4) as H3 by exact I.
  split; [exact H1|]. split; [exact H2|]. split; [exact H3|].
  destruct (DeletePolyline_twice_deletes_twice 1 1 (Pending []) 4
              tracked_state H1 H2 H3)
    as (d1 & d2 & _ & _ & _ & Ht & _).
  exact Ht.
Defined.

(** ** Deleting and adding again *)

(** X9. A delete that is still waiting removes whatever entry the
    component has when it runs.  Let [DeletePolyline] be called on a
    component of a reachable state whose promise [p] gives the handle [l],
    and let [AddPolyline] be called again with the component before the
    job has run: the component is bound to a new promise [p'].  When the
    job of [DeletePolyline] runs it calls [l.Delete()] on the old handle
    and removes the entry of the new promise: [GetNativeMarker] gives no
    promise although [p'] is still pending. *)
Theorem late_delete_removes_new_entry (polyline : component) (p : promise)
    (h : hstate) (l : Polyline) (s : state) :
  reachable s ->
  _polylines s !! polyline = Some p ->
  handles s !! p = Some h ->
  may_give h l ->
  let s0 := (DeletePolyline polyline s).2 in
  let p' := fresh (dom (handles s0)) in
  let s1 := (AddPolyline polyline s0).2 in
  let s2 := fulfil p l s1 in
  let s3 := run_jobs (pred (length (jobs s2))) s2 in
  let s4 := run_job s3 in
  p' <> p /\
  _polylines s1 !! polyline = Some p' /\
  trace s4 = trace s3 ++ [(S (zone s), DeleteCall l)] /\
  _polylines s4 !! polyline = None /\
  GetNativeMarker polyline s4 = (Ok None, s4) /\
  handles s4 !! p' = Some (Pending []).
Proof.
  intros Hreach Hm Hp Hgive. cbv zeta.
  rewrite (DeletePolyline_tracked _ p) by done.
  destruct (then_fulfil_queue p (OnDelete polyline) l h s Hp Hgive)
    as (_ & _ & _ & _ & Hz0 & _ & q & Hq & _).
  destruct (then_spec p (OnDelete polyline) s)
    as (s0 & Hthen & _ & _ & _ & _ & Hz & _ & Hh0).
  rewrite Hthen in *. cbn [snd] in *.
  set (p' := fresh (dom (handles s0))).
  assert (p ∈ dom (handles s0)) as Hdom.
  { rewrite Hp in Hh0. cbn [default] in Hh0.
    destruct h as [ws|l'|reason]; destruct Hh0 as [-> _];
      try (apply dom_insert_mono); apply elem_of_dom; by eexists. }
  assert (p' <> p) as Hne.
  { intros Heq. apply (is_fresh (dom (handles s0))). fold p'. by rewrite Heq. }
  rewrite AddPolyline_unfold. cbn [snd]. fold p'.
  set (s1 := set_polylines _ _).
  assert (handles s1 = <[p' := Pending []]> (handles s0)) as Hh1 by done.
  assert (jobs s1 = jobs s0) as Hj1 by done.
  assert (zone s1 = zone s0) as Hz1 by done.
  destruct (fulfil_spec p l s0) as (_ & _ & _ & _ & _ & _ & Hf0).
  destruct (fulfil_spec p l s1) as (_ & _ & _ & _ & Hz2 & _ & Hf1).
  rewrite Hh1, lookup_insert_ne in Hf1 by done.
  assert (jobs (fulfil p l s1) = q ++ [Reaction (OnDelete polyline) l
                                         (fresh (dom (voids s)))]) as Hq1.
  { rewrite <- Hq. destruct (handles s0 !! p) as [[ws|l'|reason]|];
      destruct Hf0 as [_ ->]; destruct Hf1 as [_ ->]; by rewrite Hj1. }
  assert (handles (fulfil p l s1) !! p' = Some (Pending [])) as Hp'.
  { destruct (handles s0 !! p) as [[ws|l'|reason]|]; destruct Hf1 as [-> _];
      rewrite ?lookup_insert_ne by done; apply lookup_insert_eq. }
  set (s2 := fulfil p l s1) in *.
  assert (pred (length (jobs s2)) = length q) as ->.
  { rewrite Hq1, length_app. cbn. lia. }
  destruct (run_jobs_frame (length q) s2) as (Hj3 & Hh3 & _ & Hz3).
  rewrite Hq1, drop_app_length in Hj3.
  set (s3 := run_jobs (length q) s2) in *.
  destruct (run_job_head _ _ s3 Hj3)
    as (s4 & -> & _ & Hh4 & _ & _ & _ & Ht4 & Hm4 & _).
  destruct (react_spec (OnDelete polyline) l s3)
    as (s5 & Hr5 & _ & _ & _ & _ & _ & Ht5 & _ & Hm5).
  rewrite Hr5 in Ht4, Hm4. cbn [snd] in Ht4, Hm4.
  assert (_polylines s4 !! polyline = None) as Hgone.
  { rewrite Hm4, Hm5. apply lookup_delete_eq. }
  split; [exact Hne|]. split; [apply lookup_insert_eq|].
  split; [by rewrite Ht4, Ht5, Hz3, Hz2, Hz1, Hz|].
  split; [exact Hgone|].
  split; [unfold GetNativeMarker, polylines_get; by rewrite Hgone|].
  by rewrite Hh4, Hh3.
Qed.

Lemma late_delete_removes_new_entry_witness :
  reachable tracked_state /\
  _polylines tracked_state !! 1%positive = Some 1%positive /\
  handles tracked_state !! 1%positive = Some (Pending []) /\
  may_give (Pending []) 4 /\
  _polylines (AddPolyline 1 (DeletePolyline 1 tracked_state).2).2 !! 1%positive
  = Some 2%positive /\
  _polylines (run_job (fulfil 1 4
                (AddPolyline 1 (DeletePolyline 1 tracked_state).2).2))
    !! 1%positive = None.
Proof.
  assert (_polylines tracked_state !! 1%positive = Some 1%positive) as H1
    by reflexivity.
  assert (handles tracked_state !! 1%positive = Some (Pending [])) as H2
    by reflexivity.
  assert (may_give (Pending []) 4) as H3 by exact I.
  split; [exact tracked_state_reachable|].
  split; [exact H1|]. split; [exact H2|]. split; [exact H3|].
  destruct (late_delete_removes_new_entry 1 1 (Pending []) 4 tracked_state
              tracked_state_reachable H1 H2 H3)
    as (_ & Hnew & _ & Hgone & _).
  split; [exact Hnew|exact Hgone].
Defined.

(** X10. Adding a component and deleting it again leaves the map as it
    was.  With no job waiting, let [AddPolyline] and then [DeletePolyline]
    be called on a component, and let the platform give the handle [l]:
    the one job that runs calls [l.Delete()], and the map is the one
    before the two calls without the component's entry, that is, the same
    map if the component had no entry.  The two calls made on the
    platform are [CreatePolyline] and [Delete]. *)
Theorem add_then_delete_restores_map (polyline : component) (l : Polyline)
    (s : state) :
  jobs s = [] ->
  let p := fresh (dom (handles s)) in
  let s1 := (DeletePolyline polyline (AddPolyline polyline s).2).2 in
  let s2 := run_job (fulfil p l s1) in
  _polylines s2 = delete polyline (_polylines s) /\
  (_polylines s !! polyline = None -> _polylines s2 = _polylines s) /\
  trace s2
  = trace s ++ [(zone s, CreatePolylineCall (options_of (components s polyline)) p);
                (S (zone s), DeleteCall l)] /\
  jobs s2 = [].
Proof.
  intros Hidle. cbv zeta. rewrite AddPolyline_unfold. cbn [snd].
  set (p := fresh (dom (handles s))).
  set (s0 := set_polylines _ _).
  assert (_polylines s0 !! polyline = Some p) as Hm0 by apply lookup_insert_eq.
  assert (handles s0 !! p = Some (Pending [])) as Hp0 by apply lookup_insert_eq.
  rewrite (DeletePolyline_tracked _ p) by done.
  destruct (then_spec p (OnDelete polyline) s0)
    as (s1 & Hthen & _ & Hm1 & _ & _ & Hz1 & Ht1 & Hh1).
  rewrite Hthen. cbn [snd]. rewrite Hp0 in Hh1. cbn [default app] in Hh1.
  destruct Hh1 as [Hh1 Hj1].
  destruct (fulfil_spec p l s1) as (_ & Hm2 & _ & _ & Hz2 & Ht2 & Hf).
  rewrite Hh1, lookup_insert_eq in Hf. destruct Hf as [_ Hj2].
  rewrite Hj1 in Hj2. change (jobs s0) with (jobs s) in Hj2.
  rewrite Hidle in Hj2. unfold queue_reaction in Hj2. cbn [map app fst snd] in Hj2.
  destruct (run_job_head _ _ _ Hj2)
    as (s3 & -> & Hj3 & _ & _ & _ & _ & Ht3 & Hm3 & _).
  destruct (react_spec (OnDelete polyline) l (fulfil p l s1))
    as (s4 & Hr4 & _ & _ & _ & _ & _ & Ht4 & _ & Hm4).
  rewrite Hr4 in Ht3, Hm3. cbn [snd] in Ht3, Hm3.
  assert (_polylines s3 = delete polyline (_polylines s)) as Hm.
  { rewrite Hm3, Hm4, Hm2, Hm1. apply delete_insert_eq. }
  split; [exact Hm|]. split; [intros Hnone; rewrite Hm; by apply delete_id|].
  split; [|exact Hj3].
  rewrite Ht3, Ht4, Ht2, Ht1, Hz2, Hz1. cbn. by rewrite <- app_assoc.
Qed.

Lemma add_then_delete_restores_map_witness :
  jobs sample_state = [] /\
  _polylines sample_state !! 1%positive = None /\
  _polylines (run_job (fulfil 1 4
                (DeletePolyline 1 (AddPolyline 1 sample_state).2).2))
  = _polylines sample_state.
Proof.
  assert (jobs sample_state = []) as H1 by reflexivity.
  assert (_polylines sample_state !! 1%positive = None) as H2 by reflexivity.
  split; [exact H1|]. split; [exact H2|].
  destruct (add_then_delete_restores_map 1 4 sample_state H1) as (_ & Hsame & _).
  exact (Hsame H2).
Defined.

(** ** From a subscription to the observer *)





(** ** What GetCoordinatesFromClick can give *)

(** X12. Let the event be made of primitive values, of objects whose
    properties are plain data properties, and of methods that return or
    throw without changing the event: the values of this development (a
    property with an accessor, which may itself throw when read, is not
    among them).  For every such event [GetCoordinatesFromClick] ends in
    one of four ways and changes nothing: it returns [null]; or it
    returns the object of the results of [lat()] and [lng()]; or it
    throws because [lat] or [lng], though truthy, is not a function; or
    it throws what [lat()] or [lng()] threw.  On such events the checks
    cover every property read: each of [latLng], [lat] and [lng] is read
    only from a value found truthy, so that no [TypeError] comes from a
    read of [null] or [undefined]. *)
Theorem GetCoordinatesFromClick_outcomes (e : value) (s : state) :
  let lat := member (member e "latLng") "lat" in
  let lng := member (member e "latLng") "lng" in
  (GetCoordinatesFromClick e s).2 = s /\
  match (GetCoordinatesFromClick e s).1 with
  | Ok v =>
      (v = VNull /\ some_check_fails e) \/
      (exists latitude longitude,
          lat = VFunction (Returns latitude) /\
          lng = VFunction (Returns longitude) /\
          v = VObject [("latitude", latitude); ("longitude", longitude)])
  | Throw (TypeError msg) =>
      msg = "not a function" /\ ~ some_check_fails e /\
      (callable lat = false \/ callable lng = false)
  | Throw (Thrown v) =>
      ~ some_check_fails e /\
      (lat = VFunction (Throws v) \/ lng = VFunction (Throws v))
  end.
Proof.
  intros lat lng. split; [apply GetCoordinatesFromClick_frame|].
  destruct (some_check_fails_dec e) as [Hsome|Hno].
  { rewrite GetCoordinatesFromClick_null by done. left. by split. }
  rewrite GetCoordinatesFromClick_checked by done. fold lat lng.
  unfold bind.
  destruct lat as [| | | | | |[a|a]]; cbn; try (by repeat split; eauto).
  - destruct lng as [| | | | | |[b|b]]; cbn; try (by repeat split; eauto).
    right. by eexists _, _.
Qed.

(** ** Using a component after its deletion *)

(** X13. Once the job of [DeletePolyline] has run, the component is as
    one that was never added.  Let a component have an entry, in a
    reachable state, whose promise gives the handle [l], and let
    [DeletePolyline] be called and its job run in turn.  After that,
    [SetOptions] and a subscription to the observable of
    [CreateEventObservable] throw a [TypeError] and change nothing, and
    [UpdatePolyline] returns an already fulfilled promise without any call
    of [SetPath]. *)
Theorem deleted_component_is_unregistered (polyline : component)
    (p : promise) (h : hstate) (l : Polyline) (s : state) :
  reachable s ->
  _polylines s !! polyline = Some p ->
  handles s !! p = Some h ->
  may_give h l ->
  let s1 := fulfil p l (DeletePolyline polyline s).2 in
  let s3 := run_job (run_jobs (pred (length (jobs s1))) s1) in
  (forall options, exists msg,
      SetOptions polyline options s3 = (Throw (TypeError msg), s3)) /\
  (forall eventName observer_, exists msg,
      CreateEventObservable eventName polyline observer_ s3
      = (Throw (TypeError msg), s3)) /\
  (exists (d : vpromise) (s4 : state),
      UpdatePolyline polyline s3 = (Ok d, s4) /\
      voids s4 !! d = Some VoidFulfilled /\
      trace s4 = trace s3 /\ jobs s4 = jobs s3).
Proof.
  intros Hreach Hm Hp Hgive s1 s3.
  destruct (delete_in_turn polyline p h l s Hreach Hm Hp Hgive)
    as (_ & _ & _ & _ & _ & Hgone & _).
  fold s1 s3 in Hgone.
  unfold SetOptions, CreateEventObservable, polylines_get, bind.
  rewrite UpdatePolyline_absent by done. rewrite Hgone. cbn [then_of throw].
  split; [by eauto|]. split; [by eauto|].
  destruct (Promise_resolve_spec s3)
    as (s4 & -> & _ & _ & ? & _ & _ & ? & _ & ? & _).
  by eexists _, _.
Qed.

Lemma deleted_component_is_unregistered_witness :
  reachable tracked_state /\
  _polylines tracked_state !! 1%positive = Some 1%positive /\
  handles tracked_state !! 1%positive = Some (Pending []) /\
  may_give (Pending []) 4 /\
  exists msg,
    SetOptions 1 (options_of sample_component)
      (run_job (fulfil 1 4 (DeletePolyline 1 tracked_state).2))
    = (Throw (TypeError msg),
       run_job (fulfil 1 4 (DeletePolyline 1 tracked_state).2)).
Proof.
  assert (_polylines tracked_state !! 1%positive = Some 1%positive) as H1
    by reflexivity.
  assert (handles tracked_state !! 1%positive = Some (Pending [])) as H2
    by reflexivity.
  assert (may_give (Pending []) 4) as H3 by exact I.
  split; [exact tracked_state_reachable|].
  split; [exact H1|]. split; [exact H2|]. split; [exact H3|].
  destruct (deleted_component_is_unregistered 1 1 (Pending []) 4 tracked_state
              tracked_state_reachable H1 H2 H3) as (Hset & _).
  exact (Hset (options_of sample_component)).
Defined.

(** ** The polyline that a second AddPolyline leaves behind *)

(** X14. [DeletePolyline] deletes only the polyline of the entry it
    finds.  With no job waiting, let a component have an entry whose
    promise [p_old] is pending with nothing waiting on it, and let
    [AddPolyline] and then [DeletePolyline] be called on the component.
    When the platform has given a handle for both promises and the job
    has run, [Delete] has been called on the handle of the new promise
    only: the polyline of [p_old] has its handle, no job is left that
    could delete it, and the component has no entry by which to reach
    it. *)
Theorem second_AddPolyline_orphans_first (polyline : component)
    (p_old : promise) (l_old l_new : Polyline) (s : state) :
  jobs s = [] ->
  _polylines s !! polyline = Some p_old ->
  handles s !! p_old = Some (Pending []) ->
  let p_new := fresh (dom (handles s)) in
  let s2 := (DeletePolyline polyline (AddPolyline polyline s).2).2 in
  let s4 := run_job (fulfil p_new l_new (fulfil p_old l_old s2)) in
  trace s4
  = trace s ++ [(zone s, CreatePolylineCall (options_of (components s polyline))
                           p_new);
                (S (zone s), DeleteCall l_new)] /\
  jobs s4 = [] /\
  handles s4 !! p_old = Some (Fulfilled l_old) /\
  handles s4 !! p_new = Some (Fulfilled l_new) /\
  _polylines s4 !! polyline = None.
Proof.
  intros Hidle Hm Hold. cbv zeta. rewrite AddPolyline_unfold. cbn [snd].
  set (p_new := fresh (dom (handles s))).
  assert (p_new <> p_old) as Hne.
  { intros Heq. apply (is_fresh (dom (handles s))). fold p_new. rewrite Heq.
    apply elem_of_dom. by eexists. }
  set (s1 := set_polylines _ _).
  assert (_polylines s1 !! polyline = Some p_new) as Hm1 by apply lookup_insert_eq.
  assert (handles s1 !! p_new = Some (Pending [])) as Hn1 by apply lookup_insert_eq.
  assert (handles s1 !! p_old = Some (Pending [])) as Ho1.
  { unfold s1. cbn. by rewrite lookup_insert_ne. }
  rewrite (DeletePolyline_tracked _ p_new) by done.
  destruct (then_spec p_new (OnDelete polyline) s1)
    as (s2 & Hthen & _ & _ & _ & _ & Hz2 & Ht2 & Hh2).
  rewrite Hthen. cbn [snd]. rewrite Hn1 in Hh2. cbn [default app] in Hh2.
  destruct Hh2 as [Hh2 Hj2]. set (d := fresh (dom (voids s1))) in *.
  destruct (fulfil_spec p_old l_old s2) as (_ & _ & _ & _ & Hz3 & Ht3 & Hf3).
  rewrite Hh2, lookup_insert_ne, Ho1 in Hf3 by done. cbn [map] in Hf3.
  destruct Hf3 as [Hh3 Hj3]. rewrite app_nil_r in Hj3.
  set (s3 := fulfil p_old l_old s2) in *.
  destruct (fulfil_spec p_new l_new s3) as (_ & _ & _ & _ & Hz4 & Ht4 & Hf4).
  rewrite Hh3, lookup_insert_ne, lookup_insert_eq in Hf4 by done.
  destruct Hf4 as [Hh4 Hj4].
  rewrite Hj3, Hj2 in Hj4. change (jobs s1) with (jobs s) in Hj4.
  rewrite Hidle in Hj4. unfold queue_reaction in Hj4.
  cbn [map app fst snd] in Hj4.
  set (s4 := fulfil p_new l_new s3) in *.
  destruct (run_job_head _ _ s4 Hj4)
    as (s5 & -> & Hj5 & Hh5 & _ & _ & _ & Ht5 & Hm5 & _).
  destruct (react_spec (OnDelete polyline) l_new s4)
    as (s6 & Hr6 & _ & _ & _ & _ & _ & Ht6 & _ & Hm6).
  rewrite Hr6 in Ht5, Hm5. cbn [snd] in Ht5, Hm5.
  split.
  { rewrite Ht5, Ht6, Ht4, Ht3, Ht2, Hz4, Hz3, Hz2. cbn.
    by rewrite <- app_assoc. }
  split; [exact Hj5|]. rewrite Hh5, Hh4.
  split; [rewrite lookup_insert_ne by done; apply lookup_insert_eq|].
  split; [apply lookup_insert_eq|].
  rewrite Hm5, Hm6. apply lookup_delete_eq.
Qed.

Lemma second_AddPolyline_orphans_first_witness :
  jobs tracked_state = [] /\
  _polylines tracked_state !! 1%positive = Some 1%positive /\
  handles tracked_state !! 1%positive = Some (Pending []) /\
  handles (run_job (fulfil 2 5 (fulfil 1 4
             (DeletePolyline 1 (AddPolyline 1 tracked_state).2).2)))
    !! 1%positive = Some (Fulfilled 4) /\
  _polylines (run_job (fulfil 2 5 (fulfil 1 4
                (DeletePolyline 1 (AddPolyline 1 tracked_state).2).2)))
    !! 1%positive = None.
Proof.
  assert (jobs tracked_state = []) as H0 by reflexivity.
  assert (_polylines tracked_state !! 1%positive = Some 1%positive) as H1
    by reflexivity.
  assert (handles tracked_state !! 1%positive = Some (Pending [])) as H2
    by reflexivity.
  split; [exact H0|]. split; [exact H1|]. split; [exact H2|].
  destruct (second_AddPolyline_orphans_first 1 1 4 5 tracked_state H0 H1 H2)
    as (_ & _ & Hold & _ & Hgone).
  split; [exact Hold|exact Hgone].
Defined.
